(** * Shallow embedding of the retrieval core of rag-agent-solution-full

    Sources: [backend/app/rag/chunking.py] and [backend/app/rag/hybrid_search.py].

    Modelling conventions.
    - A Python [str] is a [list ascii]; the model covers ASCII text, where
      [str.lower], [str.strip], [str.split] and the regex classes [\s], [\w]
      are the ASCII tables written out below.
    - A Python [int] is a [Z].
    - A Python [float] score is an exact rational [Q]; rounding is not modelled.
    - Python exceptions are the values of [py_exc]; a fallible computation
      returns a [py_result].  A loop that need not terminate takes a fuel
      argument and answers [OutOfFuel] when the fuel runs out. *)

From Stdlib Require Import ZArith QArith Qround List Ascii String Bool Lia Lqa.
From Stdlib Require Import Sorted Permutation.
Import ListNotations.

Open Scope Z_scope.

(** ** Python values, exceptions and outcomes *)

Definition pystr := list ascii.

Definition S_ (s : string) : pystr := list_ascii_of_string s.

(** The values a [Dict[str, Any]] holds in this code. *)
Inductive pyval : Type :=
| VStr (s : pystr)
| VInt (z : Z)
| VNone.

Definition pydict := list (pystr * pyval).

(** Exception classes met by the code.  [is_exception] says whether the class
    derives from [Exception] (caught by [except Exception]) or only from
    [BaseException]. *)
Inductive py_exc : Type :=
| MemoryError
| ValueError
| TypeError
| AttributeError
| KeyError
| RuntimeError
| ConnectionError
| KeyboardInterrupt
| SystemExit
| CancelledError.

Definition is_exception (e : py_exc) : bool :=
  match e with
  | KeyboardInterrupt | SystemExit | CancelledError => false
  | _ => true
  end.

Inductive py_result (A : Type) : Type :=
| Ok (a : A)
| Err (e : py_exc).
Arguments Ok {A} a.
Arguments Err {A} e.

Definition bind {A B} (r : py_result A) (k : A -> py_result B) : py_result B :=
  match r with
  | Ok a => k a
  | Err e => Err e
  end.

Notation "x <- r ;; k" := (bind r (fun x => k))
  (at level 61, r at next level, right associativity).

(** [try: body except Exception: return dflt] *)
Definition catch_exc {A} (body : py_result A) (dflt : A) : py_result A :=
  match body with
  | Ok a => Ok a
  | Err e => if is_exception e then Ok dflt else Err e
  end.

(** Result of a loop run with fuel. *)
Inductive outcome (A : Type) : Type :=
| Ret (a : A)
| Raise (e : py_exc)
| OutOfFuel.
Arguments Ret {A} a.
Arguments Raise {A} e.
Arguments OutOfFuel {A}.

(** A run that exhausts every fuel never returns and never raises. *)
Definition diverges {A} (run : nat -> outcome A) : Prop :=
  forall fuel, run fuel = OutOfFuel.

(** ** Python string operations (ASCII) *)

(** [str.isspace] on ASCII: \t \n \v \f \r, the separators \x1c-\x1f, space. *)
Definition is_space (c : ascii) : bool :=
  let n := nat_of_ascii c in
  (Nat.leb 9 n && Nat.leb n 13) || (Nat.leb 28 n && Nat.leb n 32).

Definition is_upper (c : ascii) : bool :=
  let n := nat_of_ascii c in Nat.leb 65 n && Nat.leb n 90.

Definition to_lower (c : ascii) : ascii :=
  if is_upper c then ascii_of_nat (nat_of_ascii c + 32) else c.

Definition py_lower (s : pystr) : pystr := map to_lower s.

Fixpoint lstrip (s : pystr) : pystr :=
  match s with
  | [] => []
  | c :: s' => if is_space c then lstrip s' else s
  end.

Definition py_strip (s : pystr) : pystr := rev (lstrip (rev (lstrip s))).

Definition py_len (s : list ascii) : Z := Z.of_nat (List.length s).

(** Bounds of [s[i:j]] after Python's normalisation of negative indices. *)
Definition slice_bound (n i : Z) : Z :=
  if i <? 0 then Z.max 0 (n + i) else Z.min i n.

Definition py_slice {A} (s : list A) (i j : Z) : list A :=
  let n := Z.of_nat (List.length s) in
  let a := slice_bound n i in
  let b := slice_bound n j in
  firstn (Z.to_nat (b - a)) (skipn (Z.to_nat a) s).

(** [s[:k]] *)
Definition py_take {A} (k : Z) (l : list A) : list A :=
  py_slice l 0 k.

(** [s.rfind(c)] for a one-character needle: last index, or -1. *)
Fixpoint rfind_aux (c : ascii) (i : Z) (s : pystr) (found : Z) : Z :=
  match s with
  | [] => found
  | x :: s' => rfind_aux c (i + 1) s' (if Ascii.eqb x c then i else found)
  end.

Definition py_rfind (c : ascii) (s : pystr) : Z := rfind_aux c 0 s (-1).

Fixpoint pystr_eqb (a b : pystr) : bool :=
  match a, b with
  | [], [] => true
  | x :: a', y :: b' => Ascii.eqb x y && pystr_eqb a' b'
  | _, _ => false
  end.

(** [{**d, k: v}]: overwrite in place, or append a new key. *)
Fixpoint dict_set (k : pystr) (v : pyval) (d : pydict) : pydict :=
  match d with
  | [] => [(k, v)]
  | (k', v') :: d' =>
      if pystr_eqb k k' then (k, v) :: d' else (k', v') :: dict_set k v d'
  end.

(** ** chunking.py *)

Module Chunk.
Record t : Type := mk {
  content : pystr;
  chunk_index : Z;
  metadata : pydict
}.
End Chunk.

Module FixedSize.

(** [FixedSizeChunking.__init__] stores both parameters, unchecked. *)
Record t : Type := init { chunk_size : Z; overlap : Z }.

(** The body of the [while start < len(text)] loop of [FixedSizeChunking.chunk].
    [last_period > self.chunk_size * 0.8] is written [5 * last_period > 4 * chunk_size]. *)
Fixpoint loop (self : t) (text : pystr) (metadata : pydict) (fuel : nat)
    (start chunk_index : Z) (chunks : list Chunk.t) : outcome (list Chunk.t) :=
  match fuel with
  | O => OutOfFuel
  | S fuel' =>
      if start <? py_len text then
        let end0 := start + chunk_size self in
        let chunk_text0 := py_slice text start end0 in
        let '(end_, chunk_text) :=
          if end0 <? py_len text then
            let last_period := py_rfind "."%char chunk_text0 in
            if 4 * chunk_size self <? 5 * last_period then
              (start + last_period + 1, py_slice text start (start + last_period + 1))
            else (end0, chunk_text0)
          else (end0, chunk_text0) in
        let c := Chunk.mk (py_strip chunk_text) chunk_index
                   (dict_set (S_ "chunk_size") (VInt (py_len chunk_text))
                     (dict_set (S_ "end_char") (VInt end_)
                       (dict_set (S_ "start_char") (VInt start) metadata))) in
        loop self text metadata fuel' (end_ - overlap self) (chunk_index + 1) (chunks ++ [c])
      else Ret chunks
  end.

Definition chunk (self : t) (text : pystr) (metadata : pydict) (fuel : nat)
  : outcome (list Chunk.t) :=
  loop self text metadata fuel 0 0 [].

End FixedSize.

(** [range(a, b, s)]: [ValueError] for a zero step. *)
Definition py_range (a b s : Z) : py_result (list Z) :=
  if s =? 0 then Err ValueError
  else
    let count := if 0 <? s then (b - a + s - 1) / s else (a - b - s - 1) / (- s) in
    Ok (map (fun i => a + Z.of_nat i * s) (seq 0 (Z.to_nat count))).

Definition is_terminal (c : ascii) : bool :=
  Ascii.eqb c "."%char || Ascii.eqb c "!"%char || Ascii.eqb c "?"%char.

(** [re.split(r"(?<=[.!?])\s+", text)]: a separator is a maximal run of
    whitespace that starts right after [.], [!] or [?].  [prev_term]: the last
    character read is one of them; [in_sep]: inside a separator; [cur]: the
    current piece, reversed. *)
Fixpoint split_sentences_go (prev_term in_sep : bool) (cur : pystr) (s : pystr)
  : list pystr :=
  match s with
  | [] => [rev cur]
  | c :: s' =>
      if in_sep && is_space c then split_sentences_go false true cur s'
      else if prev_term && is_space c then rev cur :: split_sentences_go false true [] s'
      else split_sentences_go (is_terminal c) false (c :: cur) s'
  end.

Definition split_sentences (text : pystr) : list pystr :=
  split_sentences_go false false [] text.

(** [" ".join(parts)] *)
Fixpoint join_space (parts : list pystr) : pystr :=
  match parts with
  | [] => []
  | [p] => p
  | p :: ps => p ++ " "%char :: join_space ps
  end.

Definition nonblank (s : pystr) : bool :=
  match py_strip s with [] => false | _ => true end.

(** [sentences = [s.strip() for s in sentences if s.strip()]] *)
Definition sentences_of (text : pystr) : list pystr :=
  map py_strip (filter nonblank (split_sentences text)).

Module Sentence.

(** [SentenceChunking.__init__] stores both parameters, unchecked. *)
Record t : Type := init { sentences_per_chunk : Z; overlap_sentences : Z }.

(** One iteration of the [for i in range(...)] loop, on the reversed chunk
    list and the running [chunk_index]. *)
Definition step (self : t) (sentences : list pystr) (metadata : pydict)
    (acc : list Chunk.t * Z) (i : Z) : list Chunk.t * Z :=
  let '(chunks, chunk_index) := acc in
  let chunk_sentences := py_slice sentences i (i + sentences_per_chunk self) in
  let chunk_text := join_space chunk_sentences in
  if nonblank chunk_text then
    (Chunk.mk chunk_text chunk_index
       (dict_set (S_ "num_sentences") (VInt (Z.of_nat (List.length chunk_sentences)))
         (dict_set (S_ "sentence_end") (VInt (i + Z.of_nat (List.length chunk_sentences)))
           (dict_set (S_ "sentence_start") (VInt i) metadata))) :: chunks,
     chunk_index + 1)
  else (chunks, chunk_index).

Definition chunk (self : t) (text : pystr) (metadata : pydict) : py_result (list Chunk.t) :=
  let sentences := sentences_of text in
  is <- py_range 0 (Z.of_nat (List.length sentences))
          (sentences_per_chunk self - overlap_sentences self) ;;
  Ok (rev (fst (fold_left (step self sentences metadata) is ([], 0)))).

End Sentence.

Module Hybrid.

(** [HybridChunking.__init__] builds a fixed-size strategy (and an unused
    sentence strategy); [chunk] delegates to the fixed-size one. *)
Definition init (chunk_size overlap : Z) : FixedSize.t := FixedSize.init chunk_size overlap.

Definition chunk (fixed_strategy : FixedSize.t) (text : pystr) (metadata : pydict)
    (fuel : nat) : outcome (list Chunk.t) :=
  FixedSize.chunk fixed_strategy text metadata fuel.

End Hybrid.

Module Semantic.

(** [SemanticChunking.__init__]: [similarity_threshold] is stored and never
    read by [chunk]. *)
Record t : Type := init { max_chunk_size : Z; similarity_threshold : Q }.

(** [{**metadata, "type": "semantic"}] *)
Definition chunk_metadata (metadata : pydict) : pydict :=
  dict_set (S_ "type") (VStr (S_ "semantic")) metadata.

(** The loop state: [chunks], [current_chunk], [current_size], [chunk_index]. *)
Definition state : Type := (list Chunk.t * list pystr * Z * Z)%type.

(** One iteration of [for sentence in sentences]. *)
Definition step (self : t) (metadata : pydict) (st : state) (sentence : pystr) : state :=
  let '(chunks, current_chunk, current_size, chunk_index) := st in
  let sentence_size := py_len sentence in
  let '(chunks, current_chunk, current_size, chunk_index) :=
    if (max_chunk_size self <? current_size + sentence_size)
       && negb (match current_chunk with [] => true | _ => false end)
    then (chunks ++ [Chunk.mk (join_space current_chunk) chunk_index (chunk_metadata metadata)],
          [], 0, chunk_index + 1)
    else (chunks, current_chunk, current_size, chunk_index) in
  (chunks, current_chunk ++ [sentence], current_size + (sentence_size + 1), chunk_index).

Definition chunk (self : t) (text : pystr) (metadata : pydict) : list Chunk.t :=
  let sentences := sentences_of text in
  let '(chunks, current_chunk, _, chunk_index) :=
    fold_left (step self metadata) sentences ([], [], 0, 0) in
  match current_chunk with
  | [] => chunks
  | _ => chunks ++ [Chunk.mk (join_space current_chunk) chunk_index (chunk_metadata metadata)]
  end.

End Semantic.

(** ** hybrid_search.py *)

Open Scope Q_scope.

Record SearchResult : Type := mkSearchResult {
  chunk_id : Z;
  document_id : Z;
  content : pystr;
  score : Q;
  search_type : pystr;
  metadata : pydict
}.

(** [result.score = s] *)
Definition set_score (r : SearchResult) (s : Q) : SearchResult :=
  mkSearchResult (chunk_id r) (document_id r) (content r) s (search_type r) (metadata r).

(** *** KeywordSearch *)

(** A keyword document: [doc.get("content", "")] and [doc.get("metadata", {})]
    read [None] as the key being absent. *)
Record KeywordDoc : Type := mkKeywordDoc {
  doc_id : Z;
  doc_document_id : Z;
  doc_content : option pyval;
  doc_metadata : option pydict
}.

Definition is_word (c : ascii) : bool :=
  let n := nat_of_ascii c in
  (Nat.leb 48 n && Nat.leb n 57) || (Nat.leb 65 n && Nat.leb n 90)
  || (Nat.leb 97 n && Nat.leb n 122) || Nat.eqb n 95.

(** [str.split()]: pieces between runs of whitespace, empty pieces dropped. *)
Fixpoint split_ws_go (cur : pystr) (s : pystr) : list pystr :=
  match s with
  | [] => match cur with [] => [] | _ => [rev cur] end
  | c :: s' =>
      if is_space c then
        match cur with [] => split_ws_go [] s' | _ => rev cur :: split_ws_go [] s' end
      else split_ws_go (c :: cur) s'
  end.

Definition py_split (s : pystr) : list pystr := split_ws_go [] s.

(** The stopword set of [_normalize_query] ("é" is outside ASCII; it is one
    character long, so the length test drops it anyway). *)
Definition stopwords : list pystr :=
  map S_ ["o"; "a"; "de"; "em"; "para"; "com"; "por"; "e"; "ou"; "que"]%string.

Definition normalize_query (query : pystr) : list pystr :=
  let q := map (fun c => if is_word c || is_space c then c else " "%char) (py_lower query) in
  filter (fun t => negb (existsb (pystr_eqb t) stopwords) && Nat.ltb 2 (List.length t))
    (py_split q).

Fixpoint prefixb (p s : pystr) : bool :=
  match p, s with
  | [], _ => true
  | x :: p', y :: s' => Ascii.eqb x y && prefixb p' s'
  | _ :: _, [] => false
  end.

(** Non-overlapping occurrences, scanning left to right; [skip] characters
    still belong to the last match. *)
Fixpoint count_go (sub : pystr) (skip : nat) (s : pystr) : nat :=
  match s with
  | [] => O
  | c :: s' =>
      match skip with
      | S k => count_go sub k s'
      | O => if prefixb sub s then S (count_go sub (List.length sub - 1) s')
             else count_go sub O s'
      end
  end.

(** [s.count(sub)] *)
Definition py_count (sub s : pystr) : Z :=
  match sub with
  | [] => py_len s + 1
  | _ => Z.of_nat (count_go sub O s)
  end.

(** [count / (1 + count * 0.1)] *)
Definition tf_score (count : Z) : Q := inject_Z count / (1 + inject_Z count * (1 # 10)).

Definition calculate_score (query_terms : list pystr) (content : pystr) : Q :=
  let content_lower := py_lower content in
  fold_left (fun score term =>
      let count := py_count term content_lower in
      if (0 <? count)%Z then score + tf_score count else score)
    query_terms 0.

Definition positive (q : Q) : bool := negb (Qle_bool q 0).

(** The [for doc in documents] loop; an [AttributeError] from [.lower()] on a
    content that is not a string leaves the loop. *)
Fixpoint keyword_loop (weight : Q) (query_terms : list pystr) (documents : list KeywordDoc)
  : py_result (list SearchResult) :=
  match documents with
  | [] => Ok []
  | doc :: docs =>
      raw <- match doc_content doc with
             | None => Ok []
             | Some (VStr s) => Ok s
             | Some _ => Err AttributeError
             end ;;
      let score := calculate_score query_terms (py_lower raw) in
      rest <- keyword_loop weight query_terms docs ;;
      if positive score then
        Ok (mkSearchResult (doc_id doc) (doc_document_id doc) raw (score * weight)
              (S_ "keyword")
              (match doc_metadata doc with Some m => m | None => [] end) :: rest)
      else Ok rest
  end.

(** [results.sort(key=lambda x: x.score, reverse=True)]: a stable sort, so an
    element goes before the later elements of equal score. *)
Fixpoint insert_desc (r : SearchResult) (l : list SearchResult) : list SearchResult :=
  match l with
  | [] => [r]
  | r' :: l' => if Qle_bool (score r') (score r) then r :: l else r' :: insert_desc r l'
  end.

Fixpoint sort_desc (l : list SearchResult) : list SearchResult :=
  match l with
  | [] => []
  | r :: l' => insert_desc r (sort_desc l')
  end.

Definition keyword_search_body (weight : Q) (query : pystr) (documents : list KeywordDoc)
    (top_k : Z) : py_result (list SearchResult) :=
  let query_terms := normalize_query query in
  match query_terms with
  | [] => Ok []
  | _ =>
      results <- keyword_loop weight query_terms documents ;;
      Ok (py_take top_k (sort_desc results))
  end.

Definition keyword_search (weight : Q) (query : pystr) (documents : list KeywordDoc)
    (top_k : Z) : py_result (list SearchResult) :=
  catch_exc (keyword_search_body weight query documents top_k) [].

(** *** SemanticSearch *)

(** A row returned by [vector_store.search_similar]. *)
Record RawHit : Type := mkRawHit {
  hit_id : Z;
  hit_document_id : Z;
  hit_content : option pystr;
  hit_similarity : option Q;
  hit_metadata : option pydict
}.

(** [vector_store.search_similar(query_embedding, top_k, threshold)], an
    external collaborator that may raise. *)
Definition vector_store := list Q -> Z -> Q -> py_result (list RawHit).

Definition of_hit (weight : Q) (h : RawHit) : SearchResult :=
  mkSearchResult (hit_id h) (hit_document_id h)
    (match hit_content h with Some c => c | None => [] end)
    (match hit_similarity h with Some s => s | None => 0 end * weight)
    (S_ "semantic")
    (match hit_metadata h with Some m => m | None => [] end).

Definition semantic_search_body (weight : Q) (query_embedding : list Q) (vs : vector_store)
    (top_k : Z) (threshold : Q) : py_result (list SearchResult) :=
  results_raw <- vs query_embedding top_k threshold ;;
  Ok (map (of_hit weight) results_raw).

Definition semantic_search (weight : Q) (query_embedding : list Q) (vs : vector_store)
    (top_k : Z) (threshold : Q) : py_result (list SearchResult) :=
  catch_exc (semantic_search_body weight query_embedding vs top_k threshold) [].

(** *** HybridSearch *)

Definition rkey (r : SearchResult) : Z * Z := (chunk_id r, document_id r).

Definition key_eqb (a b : Z * Z) : bool := ((fst a =? fst b) && (snd a =? snd b))%Z.

(** One iteration of a loop of [_combine_results] on the insertion-ordered
    dictionary [combined]. *)
Definition combine_step (combined : list ((Z * Z) * SearchResult)) (result : SearchResult)
  : list ((Z * Z) * SearchResult) :=
  let key := rkey result in
  if existsb (fun e => key_eqb (fst e) key) combined then
    map (fun e => if key_eqb (fst e) key
                  then (fst e, set_score (snd e) (score (snd e) + score result))
                  else e) combined
  else combined ++ [(key, result)].

Definition combine_results (semantic_results keyword_results : list SearchResult)
  : list SearchResult :=
  let combined := fold_left combine_step semantic_results [] in
  let combined := fold_left combine_step keyword_results combined in
  map snd combined.

(** [self.reranker.predict(pairs)], an external model that may raise. *)
Definition predictor := list (pystr * pystr) -> py_result (list Q).

(** [for result, score in zip(results, scores): result.score = float(score)] *)
Fixpoint zip_update (results : list SearchResult) (scores : list Q) : list SearchResult :=
  match results, scores with
  | r :: rs, s :: ss => set_score r s :: zip_update rs ss
  | _, _ => results
  end.

Definition rerank_results (reranker : option predictor) (query : pystr)
    (results : list SearchResult) : py_result (list SearchResult) :=
  match reranker, results with
  | None, _ | _, [] => Ok results
  | Some predict, _ =>
      catch_exc
        (scores <- predict (map (fun r => (query, content r)) results) ;;
         Ok (zip_update results scores))
        results
  end.

Record HybridSearch : Type := mkHybridSearch {
  keyword_weight : Q;
  semantic_weight : Q;
  reranker : option predictor
}.

(** Steps 1-3 of [HybridSearch.search]: both retrievals with [top_k * 2], then
    the fusion. *)
Definition fused_results (self : HybridSearch) (query : pystr) (query_embedding : list Q)
    (vs : vector_store) (keyword_documents : list KeywordDoc) (top_k : Z)
  : py_result (list SearchResult) :=
  semantic_results <- semantic_search (semantic_weight self) query_embedding vs
                        (top_k * 2) (7 # 10) ;;
  keyword_results <- keyword_search (keyword_weight self) query keyword_documents
                       (top_k * 2) ;;
  Ok (combine_results semantic_results keyword_results).

Definition search (self : HybridSearch) (query : pystr) (query_embedding : list Q)
    (vs : vector_store) (keyword_documents : list KeywordDoc) (top_k : Z)
  : py_result (list SearchResult) :=
  catch_exc
    (combined_results <- fused_results self query query_embedding vs keyword_documents top_k ;;
     combined_results <- match reranker self, combined_results with
                         | Some _, _ :: _ => rerank_results (reranker self) query combined_results
                         | _, _ => Ok combined_results
                         end ;;
     Ok (py_take top_k (sort_desc combined_results)))
    [].

(** ** Vocabulary of the properties *)

Definition has_key (k : Z * Z) (r : SearchResult) : bool := key_eqb (rkey r) k.

(** Sum of the scores of the results of [l] with key [k]. *)
Fixpoint sum_scores (k : Z * Z) (l : list SearchResult) : Q :=
  match l with
  | [] => 0
  | r :: l' => (if has_key k r then score r else 0) + sum_scores k l'
  end.

(** [a] is [b] with possibly another score. *)
Definition same_but_score (a b : SearchResult) : Prop :=
  chunk_id a = chunk_id b /\ document_id a = document_id b /\ content a = content b
  /\ search_type a = search_type b /\ metadata a = metadata b.

(** The state of the [combined] dictionary after the results [P] were inserted:
    every entry is stored under the key of its value, and a key seen in [P]
    has exactly one entry, the first result of [P] with that key carrying the
    sum of their scores. *)
Definition combined_inv (P : list SearchResult) (d : list ((Z * Z) * SearchResult)) : Prop :=
  (forall e, In e d -> fst e = rkey (snd e)) /\
  forall k,
    match find (has_key k) P with
    | None => filter (fun e => key_eqb (fst e) k) d = []
    | Some r => exists e, filter (fun e => key_eqb (fst e) k) d = [e]
                  /\ same_but_score (snd e) r /\ score (snd e) == sum_scores k P
    end.

(** Scores non-increasing from first to last. *)
Definition sorted_desc (l : list SearchResult) : Prop :=
  Sorted (fun a b => score b <= score a) l.

(** Concrete inputs: the default weights of [config.py] (semantic 0.7,
    keyword 0.3), a vector store that finds nothing, one that raises, and
    keyword documents. *)
Definition searcher (rr : option predictor) : HybridSearch := mkHybridSearch (3 # 10) (7 # 10) rr.

Definition vs_empty : vector_store := fun _ _ _ => Ok [].

Definition vs_raising (e : py_exc) : vector_store := fun _ _ _ => Err e.

Definition refund_query : pystr := S_ "refund policy".

Definition refund_doc (i : Z) : KeywordDoc :=
  mkKeywordDoc i 1 (Some (VStr (S_ "Our refund policy allows returns within 30 days."))) None.

Definition refund_docs : list KeywordDoc := map refund_doc [1; 2; 3; 4]%Z.

(** [content] is [None]: [None.lower()] raises [AttributeError]. *)
Definition broken_doc : KeywordDoc := mkKeywordDoc 9 9 (Some VNone) None.

(** A cross-encoder answering 1/2, and one that raises. *)
Definition predict_half : predictor := fun pairs => Ok (map (fun _ => 1 # 2) pairs).

Definition predict_raising : predictor := fun _ => Err RuntimeError.

Definition ok_or_nil {A} (r : py_result (list A)) : list A :=
  match r with Ok l => l | Err _ => [] end.

(** The keyword score as the spec words it: the sum over the query terms of
    [c / (1 + 0.1 c)], [c] the count of the term in the lowercased text. *)
Definition tf_sum (counts : list Z) : Q :=
  fold_right (fun c acc => tf_score c + acc) 0 counts.

Definition spec_keyword_score (query_terms : list pystr) (text : pystr) : Q :=
  tf_sum (map (fun term => py_count term (py_lower text)) query_terms).

(** A semantic hit and two keyword hits, the first on the same chunk. *)
Definition sem_hit : SearchResult :=
  mkSearchResult 7 2 (S_ "Refunds within 30 days.") (63 # 100) (S_ "semantic")
    [(S_ "page", VInt 3)].

Definition kw_hits : list SearchResult :=
  [mkSearchResult 7 2 (S_ "Refunds within 30 days.") (27 # 100) (S_ "keyword") [];
   mkSearchResult 8 2 (S_ "Refund policy.") (1 # 5) (S_ "keyword") []].

(** A keyword document with its content read as a string ([raw]). *)
Definition doc_raw (doc : KeywordDoc) (raw : pystr) : Prop :=
  doc_content doc = Some (VStr raw) \/ (doc_content doc = None /\ raw = []).

Definition abc : pystr := S_ "abc".

Definition three_spaces : pystr := S_ "   ".

Definition lorem : pystr := S_ "First sentence. Second one! Third? Fourth.".

(** [[0, 1, ..., n - 1]] as Python ints. *)
Definition zseq (n : nat) : list Z := map Z.of_nat (seq 0 n).

(** What [SemanticChunking.chunk] guarantees of an emitted chunk. *)
Definition semantic_chunk_ok (self : Semantic.t) (metadata : pydict) (sentences : list pystr)
    (c : Chunk.t) : Prop :=
  Chunk.metadata c = Semantic.chunk_metadata metadata /\ nonblank (Chunk.content c) = true
  /\ ((py_len (Chunk.content c) <= Semantic.max_chunk_size self)%Z \/ In (Chunk.content c) sentences).

(** The invariant of the [for sentence in sentences] loop: indices so far are
    [0 .. len(chunks) - 1], [chunk_index = len(chunks)], and [current_size]
    is the length of the pending text plus one. *)
Definition semantic_inv (self : Semantic.t) (metadata : pydict) (sentences : list pystr)
    (st : Semantic.state) : Prop :=
  let '(chunks, current_chunk, current_size, chunk_index) := st in
  map Chunk.chunk_index chunks = zseq (List.length chunks)
  /\ chunk_index = Z.of_nat (List.length chunks)
  /\ Forall (semantic_chunk_ok self metadata sentences) chunks
  /\ ((current_chunk = [] /\ current_size = 0%Z)
      \/ (current_chunk <> [] /\ current_size = (py_len (join_space current_chunk) + 1)%Z
          /\ nonblank (join_space current_chunk) = true
          /\ ((py_len (join_space current_chunk) <= Semantic.max_chunk_size self)%Z
              \/ exists s, current_chunk = [s] /\ In s sentences))).

(** [chunk_size] characters: [n] letters, a period, [m] letters. *)
Definition period_text (n m : nat) : pystr := repeat "a"%char n ++ "."%char :: repeat "a"%char m.

(** * Properties *)

(** ** Python helpers *)

Lemma slice_bound_range : forall n i, (0 <= n)%Z -> (0 <= slice_bound n i <= n)%Z.
Proof. intros n i Hn; unfold slice_bound; destruct (Z.ltb_spec i 0); lia. Qed.

Lemma py_slice_length_le : forall A (s : list A) i j,
  (i <= j)%Z -> (Z.of_nat (List.length (py_slice s i j)) <= j - i)%Z.
Proof.
  intros A s i j Hij; unfold py_slice.
  set (n := Z.of_nat (List.length s)).
  rewrite length_firstn, length_skipn.
  assert (Hn : (0 <= n)%Z) by (unfold n; lia).
  pose proof (slice_bound_range n i Hn) as Ha.
  pose proof (slice_bound_range n j Hn) as Hb.
  assert (Hd : (slice_bound n j - slice_bound n i <= j - i)%Z).
  { unfold slice_bound in *.
    destruct (Z.ltb_spec i 0), (Z.ltb_spec j 0); lia. }
  rewrite Nat2Z.inj_min. lia.
Qed.

Lemma rfind_aux_lt : forall c s i found,
  (found < i)%Z -> (rfind_aux c i s found < i + py_len s)%Z.
Proof.
  intros c s; induction s as [| x s IH]; intros i found Hf; unfold py_len in *; simpl.
  - lia.
  - specialize (IH (i + 1)%Z (if Ascii.eqb x c then i else found)).
    destruct (Ascii.eqb x c); lia.
Qed.

Lemma py_rfind_lt : forall c s, (py_rfind c s < py_len s)%Z.
Proof. intros c s; unfold py_rfind; pose proof (rfind_aux_lt c s 0 (-1)); lia. Qed.

(** ** chunking.py *)

(** With [0 <= chunk_size <= overlap], a pass of the loop never moves [start]
    forward, so the loop test [start < len(text)] stays true. *)
Lemma fixed_loop_stalls : forall self text metadata fuel start chunk_index chunks,
  (0 <= FixedSize.chunk_size self <= FixedSize.overlap self)%Z ->
  (start < py_len text)%Z ->
  FixedSize.loop self text metadata fuel start chunk_index chunks = OutOfFuel.
Proof.
  intros self text metadata fuel; induction fuel as [| fuel IH];
    intros start idx chunks Hcfg Hstart; [reflexivity |].
  cbn [FixedSize.loop]. rewrite (proj2 (Z.ltb_lt _ _) Hstart).
  destruct (Z.ltb_spec (start + FixedSize.chunk_size self) (py_len text)) as [Hend | Hend].
  - set (ct := py_slice text start (start + FixedSize.chunk_size self)).
    pose proof (py_rfind_lt "."%char ct) as Hlp.
    pose proof (py_slice_length_le _ text start (start + FixedSize.chunk_size self)) as Hlen.
    fold ct in Hlen; unfold py_len in Hlp.
    destruct (Z.ltb_spec (4 * FixedSize.chunk_size self) (5 * py_rfind "."%char ct));
      cbv beta iota; apply IH; [assumption | lia | assumption | lia].
  - apply IH; [assumption | lia].
Qed.

(** Claim C2, counterexample: [FixedSizeChunking(chunk_size=10, overlap=15)]
    is accepted, and [chunk("abc", {})] neither raises nor returns. *)
Lemma C2_fixed_10_15_diverges :
  diverges (FixedSize.chunk (FixedSize.init 10 15) abc []).
Proof.
  intro fuel. apply fixed_loop_stalls; cbv; [split; discriminate | reflexivity].
Qed.

(** Claim C2 (as the code behaves): [FixedSizeChunking] does not check the
    configuration; whenever [0 <= chunk_size <= overlap], [chunk] on any
    non-empty text raises nothing and never returns, for every metadata. *)
Theorem C2_fixed_overlap_ge_size_diverges : forall chunk_size overlap text metadata,
  (0 <= chunk_size <= overlap)%Z -> text <> [] ->
  diverges (FixedSize.chunk (FixedSize.init chunk_size overlap) text metadata).
Proof.
  intros cs ov text metadata Hcfg Htext fuel.
  apply fixed_loop_stalls; [exact Hcfg |].
  unfold py_len; destruct text; [congruence | simpl; lia].
Qed.

Lemma C2_fixed_overlap_ge_size_diverges_witness :
  (0 <= 10 <= 15)%Z /\ abc <> [] /\ diverges (FixedSize.chunk (FixedSize.init 10 15) abc []).
Proof.
  split; [lia | split; [discriminate |]].
  apply C2_fixed_overlap_ge_size_diverges; [lia | discriminate].
Defined.

(** Claim C8, failing input: [FixedSizeChunking()] (chunk_size 1024, overlap 128)
    on the text of three spaces returns one chunk whose content is empty; the
    hybrid strategy, which delegates to it, does the same. *)
Theorem C8_fixed_blank_chunk :
  FixedSize.chunk (FixedSize.init 1024 128) three_spaces [] 2
  = Ret [Chunk.mk [] 0 [(S_ "start_char", VInt 0); (S_ "end_char", VInt 1024);
                        (S_ "chunk_size", VInt 3)]]
  /\ Hybrid.chunk (Hybrid.init 1024 128) three_spaces [] 2
  = Ret [Chunk.mk [] 0 [(S_ "start_char", VInt 0); (S_ "end_char", VInt 1024);
                        (S_ "chunk_size", VInt 3)]]
  /\ py_strip [] = [].
Proof. split; [| split]; vm_compute; reflexivity. Qed.

Lemma py_range_neg_step_empty : forall n s,
  (0 <= n)%Z -> (s < 0)%Z -> py_range 0 n s = Ok [].
Proof.
  intros n s Hn Hs; unfold py_range.
  rewrite (proj2 (Z.eqb_neq s 0)) by lia.
  rewrite (proj2 (Z.ltb_ge 0 s)) by lia.
  assert (Hq : ((0 - n - s - 1) / - s < 1)%Z)
    by (apply Z.div_lt_upper_bound; lia).
  replace (Z.to_nat ((0 - n - s - 1) / - s)) with O by lia.
  reflexivity.
Qed.

(** Claim C10: with [overlap_sentences > sentences_per_chunk] the step of
    [range] is negative, and [SentenceChunking.chunk] returns the empty list
    without raising, for every text and metadata. *)
Theorem C10_sentence_negative_step_empty : forall sentences_per_chunk overlap_sentences text metadata,
  (sentences_per_chunk < overlap_sentences)%Z ->
  Sentence.chunk (Sentence.init sentences_per_chunk overlap_sentences) text metadata = Ok [].
Proof.
  intros spc ops text metadata H; unfold Sentence.chunk; cbn [Sentence.sentences_per_chunk Sentence.overlap_sentences].
  rewrite py_range_neg_step_empty by lia. reflexivity.
Qed.

Lemma C10_sentence_negative_step_empty_witness :
  (2 < 3)%Z /\ Sentence.chunk (Sentence.init 2 3) lorem [] = Ok [].
Proof.
  split; [lia |]. apply C10_sentence_negative_step_empty. lia.
Defined.

(** ** The fusion step *)

Lemma key_eqb_true : forall a b, key_eqb a b = true <-> a = b.
Proof.
  intros [a1 a2] [b1 b2]; unfold key_eqb; simpl.
  rewrite andb_true_iff, !Z.eqb_eq; split; [intros [-> ->] | intros [= -> ->]]; auto.
Qed.

Lemma key_eqb_false : forall a b, key_eqb a b = false <-> a <> b.
Proof.
  intros a b; rewrite <- key_eqb_true; destruct (key_eqb a b); split; congruence.
Qed.

Lemma rkey_set_score : forall r s, rkey (set_score r s) = rkey r.
Proof. reflexivity. Qed.

Lemma same_but_score_set : forall r s, same_but_score (set_score r s) r.
Proof. intros; repeat split. Qed.

Lemma filter_map_comm : forall A (f : A -> bool) (g : A -> A) l,
  (forall a, f (g a) = f a) -> filter f (map g l) = map g (filter f l).
Proof.
  intros A f g l Hfg; induction l as [| a l IH]; simpl; [reflexivity |].
  rewrite Hfg; destruct (f a); simpl; rewrite IH; reflexivity.
Qed.

Lemma sum_scores_app : forall k P x,
  sum_scores k (P ++ [x]) == sum_scores k P + (if has_key k x then score x else 0).
Proof.
  intros k P x; induction P as [| r P IH]; simpl.
  - destruct (has_key k x); ring.
  - rewrite IH; ring.
Qed.

Lemma sum_scores_none : forall k P, find (has_key k) P = None -> sum_scores k P == 0.
Proof.
  intros k P; induction P as [| r P IH]; simpl; [reflexivity |].
  destruct (has_key k r); [discriminate |]. intro H; rewrite IH by exact H; ring.
Qed.

Lemma find_app_none : forall A (f : A -> bool) P x,
  find f P = None -> find f (P ++ [x]) = if f x then Some x else None.
Proof.
  intros A f P x; induction P as [| r P IH]; simpl; [reflexivity |].
  destruct (f r); [discriminate | exact IH].
Qed.

Lemma find_app_some : forall A (f : A -> bool) P x r,
  find f P = Some r -> find f (P ++ [x]) = Some r.
Proof.
  intros A f P x r; induction P as [| a P IH]; simpl; [discriminate |].
  destruct (f a); [auto | exact IH].
Qed.

Lemma filter_key_nil_existsb : forall (d : list ((Z * Z) * SearchResult)) k,
  filter (fun e => key_eqb (fst e) k) d = [] ->
  existsb (fun e => key_eqb (fst e) k) d = false.
Proof.
  intros d k; induction d as [| e d IH]; simpl; [reflexivity |].
  destruct (key_eqb (fst e) k); [discriminate | exact IH].
Qed.

Lemma combined_inv_nil : combined_inv [] [].
Proof. split; [intros e [] | intro k; reflexivity]. Qed.

Lemma combined_inv_step : forall P d x,
  combined_inv P d -> combined_inv (P ++ [x]) (combine_step d x).
Proof.
  intros P d x [Hkeys Hk]. unfold combine_step.
  set (kx := rkey x).
  set (upd := fun e : (Z * Z) * SearchResult =>
                if key_eqb (fst e) kx then (fst e, set_score (snd e) (score (snd e) + score x))
                else e).
  assert (Hfst : forall e, fst (upd e) = fst e)
    by (intro e; unfold upd; destruct (key_eqb (fst e) kx); reflexivity).
  destruct (existsb (fun e => key_eqb (fst e) kx) d) eqn:Hex.
  - (* the key is present: its entry is updated in place *)
    split.
    + intros e' He'. apply in_map_iff in He' as [e [<- He]].
      unfold upd; destruct (key_eqb (fst e) kx); simpl; auto.
    + intro k. rewrite (filter_map_comm _ _ upd) by (intro a; rewrite Hfst; reflexivity).
      specialize (Hk k).
      destruct (key_eqb kx k) eqn:Hkk.
      * apply key_eqb_true in Hkk. subst k.
        destruct (find (has_key kx) P) as [r |] eqn:Hf.
        -- rewrite (find_app_some _ _ _ _ _ Hf).
           destruct Hk as [e [Hfe [Hsame Hsc]]]. rewrite Hfe. simpl.
           exists (upd e); split; [reflexivity |].
           assert (Hek : key_eqb (fst e) kx = true).
           { assert (In e (filter (fun e => key_eqb (fst e) kx) d)) by (rewrite Hfe; left; auto).
             apply filter_In in H as [_ H]; exact H. }
           unfold upd; rewrite Hek; simpl. split.
           ++ destruct Hsame as (H1 & H2 & H3 & H4 & H5); repeat split; assumption.
           ++ rewrite sum_scores_app, Hsc. unfold has_key; fold kx.
              rewrite (proj2 (key_eqb_true kx kx) eq_refl). reflexivity.
        -- exfalso. apply filter_key_nil_existsb in Hk. congruence.
      * assert (Hxk : has_key k x = false) by (unfold has_key; fold kx;
          apply key_eqb_false; apply key_eqb_false in Hkk; congruence).
        destruct (find (has_key k) P) as [r |] eqn:Hf.
        -- rewrite (find_app_some _ _ _ _ _ Hf).
           destruct Hk as [e [Hfe [Hsame Hsc]]]. rewrite Hfe. simpl.
           assert (Hek : key_eqb (fst e) k = true).
           { assert (In e (filter (fun e => key_eqb (fst e) k) d)) by (rewrite Hfe; left; auto).
             apply filter_In in H as [_ H]; exact H. }
           apply key_eqb_true in Hek.
           assert (Hu : upd e = e).
           { unfold upd. rewrite Hek. rewrite (proj2 (key_eqb_false k kx)); [reflexivity |].
             apply key_eqb_false in Hkk; congruence. }
           exists e; rewrite Hu; split; [reflexivity | split; [exact Hsame |]].
           rewrite sum_scores_app, Hxk, Hsc; ring.
        -- rewrite (find_app_none _ _ _ _ Hf), Hxk, Hk. reflexivity.
  - (* the key is new: appended at the end *)
    split.
    + intros e He. apply in_app_or in He as [He | [<- | []]]; auto.
    + intro k. rewrite filter_app. specialize (Hk k). simpl.
      destruct (key_eqb kx k) eqn:Hkk.
      * apply key_eqb_true in Hkk. subst k.
        destruct (find (has_key kx) P) as [r |] eqn:Hf.
        -- exfalso. destruct Hk as [e [Hfe _]].
           assert (In e (filter (fun e => key_eqb (fst e) kx) d)) by (rewrite Hfe; left; auto).
           apply filter_In in H as [Hin Hke].
           assert (existsb (fun e => key_eqb (fst e) kx) d = true)
             by (apply existsb_exists; eauto).
           congruence.
        -- rewrite (find_app_none _ _ _ _ Hf).
           unfold has_key; fold kx; rewrite (proj2 (key_eqb_true kx kx) eq_refl).
           rewrite Hk. exists (kx, x); split; [reflexivity | split].
           ++ repeat split.
           ++ simpl. rewrite sum_scores_app, (sum_scores_none _ _ Hf).
              unfold has_key; fold kx; rewrite (proj2 (key_eqb_true kx kx) eq_refl). ring.
      * assert (Hxk : has_key k x = false) by (unfold has_key; fold kx;
          apply key_eqb_false; apply key_eqb_false in Hkk; congruence).
        rewrite app_nil_r.
        destruct (find (has_key k) P) as [r |] eqn:Hf.
        -- rewrite (find_app_some _ _ _ _ _ Hf).
           destruct Hk as [e [Hfe [Hsame Hsc]]]. exists e.
           split; [exact Hfe | split; [exact Hsame |]].
           rewrite sum_scores_app, Hxk, Hsc; ring.
        -- rewrite (find_app_none _ _ _ _ Hf), Hxk. exact Hk.
Qed.

Lemma combined_inv_fold : forall P,
  combined_inv P (fold_left combine_step P []).
Proof.
  induction P as [| x P IH] using rev_ind; [exact combined_inv_nil |].
  rewrite fold_left_app. simpl. apply combined_inv_step, IH.
Qed.

Lemma combine_results_fold : forall sem kw,
  combine_results sem kw = map snd (fold_left combine_step (sem ++ kw) []).
Proof. intros; unfold combine_results; rewrite fold_left_app; reflexivity. Qed.

Lemma filter_has_key_map_snd : forall k (d : list ((Z * Z) * SearchResult)),
  (forall e, In e d -> fst e = rkey (snd e)) ->
  filter (has_key k) (map snd d) = map snd (filter (fun e => key_eqb (fst e) k) d).
Proof.
  intros k d; induction d as [| e d IH]; intro Hd; simpl; [reflexivity |].
  unfold has_key at 1. rewrite <- (Hd e (or_introl eq_refl)).
  destruct (key_eqb (fst e) k); simpl; rewrite IH by (intros; apply Hd; right; assumption); reflexivity.
Qed.

Lemma find_has_key_in : forall k P,
  In k (map rkey P) -> exists r, find (has_key k) P = Some r.
Proof.
  intros k P; induction P as [| r P IH]; simpl; [intros [] |].
  intros [Hr | Hin].
  - exists r. unfold has_key; rewrite (proj2 (key_eqb_true _ _) Hr). reflexivity.
  - destruct (has_key k r); eauto.
Qed.

Lemma find_app_in_left : forall k P Q r,
  find (has_key k) P = Some r -> find (has_key k) (P ++ Q) = Some r.
Proof.
  intros k P Q r; induction P as [| a P IH]; simpl; [discriminate |].
  destruct (has_key k a); auto.
Qed.

Lemma sum_scores_app2 : forall k P Q,
  sum_scores k (P ++ Q) == sum_scores k P + sum_scores k Q.
Proof.
  intros k P Q; induction P as [| a P IH]; simpl; [ring |]. rewrite IH; ring.
Qed.

(** The entry of [_combine_results] for a key met in the input: the first
    result with that key, carrying the sum of the scores of all of them. *)
Lemma combine_results_entry : forall sem kw k r,
  find (has_key k) (sem ++ kw) = Some r ->
  exists e, filter (has_key k) (combine_results sem kw) = [e]
    /\ same_but_score e r /\ score e == sum_scores k sem + sum_scores k kw.
Proof.
  intros sem kw k r Hf.
  destruct (combined_inv_fold (sem ++ kw)) as [Hkeys Hk].
  specialize (Hk k); rewrite Hf in Hk. destruct Hk as [e [Hfe [Hsame Hsc]]].
  rewrite combine_results_fold, filter_has_key_map_snd by exact Hkeys.
  rewrite Hfe. exists (snd e); split; [reflexivity | split; [exact Hsame |]].
  rewrite Hsc; apply sum_scores_app2.
Qed.

(** Claim C1: for a key [(chunk_id, document_id)] present in both result
    lists, [_combine_results] keeps exactly one entry, whose score is the
    semantic score plus the keyword score of that key (each the sum over the
    results of the list with that key); inserting the keyword list first gives
    an entry with the same score. *)
Theorem C1_combine_sums_scores : forall semantic_results keyword_results k,
  In k (map rkey semantic_results) -> In k (map rkey keyword_results) ->
  exists e,
    filter (has_key k) (combine_results semantic_results keyword_results) = [e]
    /\ score e == sum_scores k semantic_results + sum_scores k keyword_results
    /\ exists e', filter (has_key k) (combine_results keyword_results semantic_results) = [e']
                  /\ score e' == score e.
Proof.
  intros sem kw k Hs Hk.
  destruct (find_has_key_in k sem Hs) as [r Hr].
  destruct (find_has_key_in k kw Hk) as [r' Hr'].
  destruct (combine_results_entry sem kw k r (find_app_in_left _ _ _ _ Hr)) as [e [He [_ Hsc]]].
  destruct (combine_results_entry kw sem k r' (find_app_in_left _ _ _ _ Hr')) as [e' [He' [_ Hsc']]].
  exists e; split; [exact He | split; [exact Hsc |]].
  exists e'; split; [exact He' |]. rewrite Hsc', Hsc; ring.
Qed.

Lemma C1_combine_sums_scores_witness :
  In (7, 2)%Z (map rkey [sem_hit]) /\ In (7, 2)%Z (map rkey kw_hits) /\
  exists e,
    filter (has_key (7, 2)%Z) (combine_results [sem_hit] kw_hits) = [e]
    /\ score e == sum_scores (7, 2)%Z [sem_hit] + sum_scores (7, 2)%Z kw_hits
    /\ exists e', filter (has_key (7, 2)%Z) (combine_results kw_hits [sem_hit]) = [e']
                  /\ score e' == score e.
Proof.
  split; [left; reflexivity | split; [left; reflexivity |]].
  apply C1_combine_sums_scores; left; reflexivity.
Defined.

(** Claim C9: for a key present in both lists, the merged entry is the first
    semantic result with that key, with only its score changed (to the sum):
    identifiers, content, [search_type] and metadata are the semantic ones. *)
Theorem C9_combine_keeps_semantic_fields : forall semantic_results keyword_results k r,
  find (has_key k) semantic_results = Some r -> In k (map rkey keyword_results) ->
  exists e,
    filter (has_key k) (combine_results semantic_results keyword_results) = [e]
    /\ chunk_id e = chunk_id r /\ document_id e = document_id r
    /\ content e = content r /\ search_type e = search_type r /\ metadata e = metadata r
    /\ score e == sum_scores k semantic_results + sum_scores k keyword_results.
Proof.
  intros sem kw k r Hr Hk.
  destruct (combine_results_entry sem kw k r (find_app_in_left _ _ _ _ Hr))
    as [e [He [(H1 & H2 & H3 & H4 & H5) Hsc]]].
  exists e; repeat split; assumption.
Qed.

(** ** Sorting and truncation *)

Lemma insert_desc_sorted : forall r l, sorted_desc l -> sorted_desc (insert_desc r l).
Proof.
  unfold sorted_desc. intros r l; induction l as [| r' l IH]; intro Hs; simpl.
  - repeat constructor.
  - destruct (Qle_bool (score r') (score r)) eqn:Hle.
    + apply Qle_bool_iff in Hle. constructor; [exact Hs | constructor; exact Hle].
    + assert (Hlt : score r <= score r').
      { apply Qlt_le_weak, Qnot_le_lt. intro H. apply Qle_bool_iff in H. congruence. }
      apply Sorted_inv in Hs as [Hs Hhd].
      constructor; [apply IH, Hs |].
      destruct l as [| r'' l]; simpl.
      * constructor; exact Hlt.
      * destruct (Qle_bool (score r'') (score r)); constructor; [exact Hlt |].
        inversion Hhd; assumption.
Qed.

Lemma sort_desc_sorted : forall l, sorted_desc (sort_desc l).
Proof.
  induction l as [| r l IH]; simpl; [constructor | apply insert_desc_sorted, IH].
Qed.

Lemma sorted_firstn : forall (R : SearchResult -> SearchResult -> Prop) n l,
  Sorted R l -> Sorted R (firstn n l).
Proof.
  intros R n; induction n as [| n IH]; intros l Hs; simpl; [constructor |].
  destruct l as [| a l]; [constructor |].
  apply Sorted_inv in Hs as [Hs Hhd]. constructor; [apply IH, Hs |].
  destruct n, l; simpl; try constructor. inversion Hhd; assumption.
Qed.



Lemma py_take_nonneg : forall A (k : Z) (l : list A),
  (0 <= k)%Z -> py_take k l = firstn (Z.to_nat k) l.
Proof.
  intros A k l Hk. unfold py_take, py_slice, slice_bound. simpl.
  rewrite (proj2 (Z.ltb_ge k 0)) by lia.
  rewrite (Z.min_l 0) by lia. rewrite Z.sub_0_r. simpl.
  destruct (Z.le_ge_cases k (Z.of_nat (List.length l))).
  - rewrite Z.min_l by lia. reflexivity.
  - rewrite Z.min_r by lia. rewrite Nat2Z.id, firstn_all.
    rewrite firstn_all2 by lia. reflexivity.
Qed.

Lemma in_firstn_skipn : forall A n m (l : list A) x, In x (firstn n (skipn m l)) -> In x l.
Proof.
  intros A n m l x H.
  assert (Hs : In x (skipn m l))
    by (rewrite <- (firstn_skipn n (skipn m l)); apply in_or_app; left; exact H).
  rewrite <- (firstn_skipn m l); apply in_or_app; right; exact Hs.
Qed.

Lemma py_take_nil : forall A (k : Z), py_take k (@nil A) = [].
Proof. intros; unfold py_take, py_slice; rewrite skipn_nil, firstn_nil; reflexivity. Qed.

Lemma py_take_incl : forall A (k : Z) (l : list A) x, In x (py_take k l) -> In x l.
Proof.
  intros A k l x H. unfold py_take, py_slice in H.
  apply in_firstn_skipn in H; exact H.
Qed.

Lemma insert_desc_in : forall r l x, In x (insert_desc r l) -> x = r \/ In x l.
Proof.
  intros r l x; induction l as [| r' l IH]; simpl.
  - intros [H | []]; auto.
  - destruct (Qle_bool (score r') (score r)); simpl.
    + intros [H | H]; [left; auto | right; exact H].
    + intros [H | H]; [auto |]. destruct (IH H); auto.
Qed.

Lemma sort_desc_in : forall l x, In x (sort_desc l) -> In x l.
Proof.
  induction l as [| r l IH]; simpl; [auto |].
  intros x H. destruct (insert_desc_in _ _ _ H); auto.
Qed.

(** [search] ends with [combined_results.sort(...)] and [[:top_k]]. *)
Lemma search_shape : forall self query qe vs docs top_k l,
  search self query qe vs docs top_k = Ok l ->
  l = [] \/ exists c, l = py_take top_k (sort_desc c).
Proof.
  intros self query qe vs docs top_k l. unfold search, catch_exc, bind.
  destruct (fused_results self query qe vs docs top_k) as [c | e].
  - destruct (match reranker self, c with
              | Some _, _ :: _ => rerank_results (reranker self) query c
              | _, _ => Ok c end) as [c' | e].
    + intros [= <-]. right; eauto.
    + destruct (is_exception e); intros [= <-]; auto.
  - destruct (is_exception e); intros [= <-]; auto.
Qed.

(** ** The orchestrator *)

Lemma py_take_firstn : forall A (k : Z) (l : list A), exists m, py_take k l = firstn m l.
Proof.
  intros A k l. unfold py_take, py_slice.
  replace (slice_bound (Z.of_nat (List.length l)) 0) with 0%Z by (unfold slice_bound; simpl; lia).
  eexists. reflexivity.
Qed.

(** Claim C3: every list returned by [HybridSearch.search] has
    non-increasing scores, whatever [top_k] is; for a non-negative [top_k]
    it has at most [top_k] elements. *)
Theorem C3_search_sorted_bounded : forall self query query_embedding vs keyword_documents top_k l,
  search self query query_embedding vs keyword_documents top_k = Ok l ->
  sorted_desc l /\ ((0 <= top_k)%Z -> (Z.of_nat (List.length l) <= top_k)%Z).
Proof.
  intros self query qe vs docs top_k l Hs.
  destruct (search_shape _ _ _ _ _ _ _ Hs) as [-> | [c ->]].
  - split; [constructor | simpl; lia].
  - split.
    + destruct (py_take_firstn _ top_k (sort_desc c)) as [m ->].
      apply sorted_firstn, sort_desc_sorted.
    + intros Hk. rewrite py_take_nonneg by exact Hk.
      pose proof (firstn_le_length (Z.to_nat top_k) (sort_desc c)). lia.
Qed.

Lemma C3_search_sorted_bounded_witness :
  let l := ok_or_nil (search (searcher None) refund_query [] vs_empty refund_docs 1) in
  search (searcher None) refund_query [] vs_empty refund_docs 1 = Ok l
  /\ sorted_desc l /\ (Z.of_nat (List.length l) <= 1)%Z.
Proof.
  intro l. assert (Hs : search (searcher None) refund_query [] vs_empty refund_docs 1 = Ok l)
    by (vm_compute; reflexivity).
  destruct (C3_search_sorted_bounded (searcher None) refund_query [] vs_empty refund_docs 1 l Hs)
    as [Hsort Hlen].
  split; [exact Hs | split; [exact Hsort | exact (Hlen ltac:(lia))]].
Defined.

(** Claim C3, counterexample: with [top_k = -1] the slices [[:top_k * 2]] and
    [[:top_k]] count from the end; four matching keyword documents give a
    result of length 1, which is more than [top_k]. *)
Lemma C3_negative_top_k :
  let l := ok_or_nil (search (searcher None) refund_query [] vs_empty refund_docs (-1)) in
  search (searcher None) refund_query [] vs_empty refund_docs (-1) = Ok l
  /\ List.length l = 1%nat /\ (-1 < Z.of_nat (List.length l))%Z.
Proof. vm_compute. split; [reflexivity | split; [reflexivity | reflexivity]]. Qed.

(** Claim C4: [HybridSearch.search] lets no [Exception] escape (only a
    [BaseException] such as [KeyboardInterrupt] raised by a collaborator
    propagates); a retrieval path whose body raises an [Exception]
    contributes the empty list; when both paths raise, the call returns the
    empty list. *)
Theorem C4_search_fail_soft : forall self query query_embedding vs keyword_documents top_k,
  (forall e, search self query query_embedding vs keyword_documents top_k = Err e ->
             is_exception e = false)
  /\ (forall e, semantic_search_body (semantic_weight self) query_embedding vs (top_k * 2) (7 # 10) = Err e ->
        is_exception e = true ->
        semantic_search (semantic_weight self) query_embedding vs (top_k * 2) (7 # 10) = Ok [])
  /\ (forall e, keyword_search_body (keyword_weight self) query keyword_documents (top_k * 2) = Err e ->
        is_exception e = true ->
        keyword_search (keyword_weight self) query keyword_documents (top_k * 2) = Ok [])
  /\ (forall e1 e2,
        semantic_search_body (semantic_weight self) query_embedding vs (top_k * 2) (7 # 10) = Err e1 ->
        is_exception e1 = true ->
        keyword_search_body (keyword_weight self) query keyword_documents (top_k * 2) = Err e2 ->
        is_exception e2 = true ->
        search self query query_embedding vs keyword_documents top_k = Ok []).
Proof.
  intros self query qe vs docs top_k.
  assert (Hsem : forall e, semantic_search_body (semantic_weight self) qe vs (top_k * 2) (7 # 10) = Err e ->
            is_exception e = true ->
            semantic_search (semantic_weight self) qe vs (top_k * 2) (7 # 10) = Ok []).
  { intros e He Hx. unfold semantic_search, catch_exc. rewrite He, Hx. reflexivity. }
  assert (Hkw : forall e, keyword_search_body (keyword_weight self) query docs (top_k * 2) = Err e ->
            is_exception e = true ->
            keyword_search (keyword_weight self) query docs (top_k * 2) = Ok []).
  { intros e He Hx. unfold keyword_search, catch_exc. rewrite He, Hx. reflexivity. }
  split; [| split; [exact Hsem | split; [exact Hkw |]]].
  - intros e. unfold search, catch_exc.
    destruct (bind (fused_results self query qe vs docs top_k) _) as [l | e'].
    + discriminate.
    + destruct (is_exception e') eqn:Hx; [discriminate | intros [= <-]; exact Hx].
  - intros e1 e2 He1 Hx1 He2 Hx2.
    unfold search, fused_results. rewrite (Hsem e1 He1 Hx1). simpl.
    rewrite (Hkw e2 He2 Hx2). simpl.
    destruct (reranker self); simpl; rewrite py_take_nil; reflexivity.
Qed.

Lemma C4_search_fail_soft_witness :
  search (searcher None) refund_query [] (vs_raising ConnectionError) [broken_doc] 3 = Ok [].
Proof.
  apply (proj2 (proj2 (proj2 (C4_search_fail_soft (searcher None) refund_query []
           (vs_raising ConnectionError) [broken_doc] 3))) ConnectionError AttributeError);
    vm_compute; reflexivity.
Defined.

Lemma zip_update_scores : forall c scores,
  List.length scores = List.length c ->
  map score (zip_update c scores) = scores /\ Forall2 same_but_score (zip_update c scores) c.
Proof.
  induction c as [| r c IH]; intros [| s scores] Hlen; simpl in *; try discriminate.
  - split; [reflexivity | constructor].
  - injection Hlen as Hlen. destruct (IH scores Hlen) as [H1 H2].
    split; [rewrite H1; reflexivity | constructor; [apply same_but_score_set | exact H2]].
Qed.

(** Claim C5: when the reranker is absent, or its [predict] raises an
    [Exception], [search] returns the fused results sorted by their fused
    scores (then cut to [top_k]); when [predict] answers one score per
    result, each result's score is replaced by the model's score, the other
    fields kept, and the ranking is by those scores. *)
Theorem C5_rerank_fail_soft_and_overwrite :
  forall self query query_embedding vs keyword_documents top_k c,
  fused_results self query query_embedding vs keyword_documents top_k = Ok c ->
  (reranker self = None ->
     search self query query_embedding vs keyword_documents top_k = Ok (py_take top_k (sort_desc c)))
  /\ (forall predict e, reranker self = Some predict ->
        predict (map (fun r => (query, content r)) c) = Err e -> is_exception e = true ->
        search self query query_embedding vs keyword_documents top_k
        = Ok (py_take top_k (sort_desc c)))
  /\ (forall predict scores, reranker self = Some predict ->
        predict (map (fun r => (query, content r)) c) = Ok scores ->
        List.length scores = List.length c ->
        search self query query_embedding vs keyword_documents top_k
        = Ok (py_take top_k (sort_desc (zip_update c scores)))
        /\ map score (zip_update c scores) = scores
        /\ Forall2 same_but_score (zip_update c scores) c).
Proof.
  intros self query qe vs docs top_k c Hf.
  unfold search. rewrite Hf. simpl.
  split; [| split].
  - intros Hr. rewrite Hr. reflexivity.
  - intros predict e Hr Hp Hx. rewrite Hr.
    destruct c as [| r c]; [reflexivity |].
    unfold rerank_results, catch_exc. rewrite Hp. simpl. rewrite Hx. reflexivity.
  - intros predict scores Hr Hp Hlen. rewrite Hr.
    split; [| apply zip_update_scores, Hlen].
    destruct c as [| r c].
    + destruct scores; [reflexivity | discriminate].
    + unfold rerank_results, catch_exc. rewrite Hp. reflexivity.
Qed.

Lemma C5_rerank_fail_soft_and_overwrite_witness :
  let c := ok_or_nil (fused_results (searcher (Some predict_half)) refund_query [] vs_empty
                        refund_docs 2) in
  fused_results (searcher (Some predict_half)) refund_query [] vs_empty refund_docs 2 = Ok c
  /\ search (searcher (Some predict_half)) refund_query [] vs_empty refund_docs 2
     = Ok (py_take 2 (sort_desc (zip_update c (map (fun _ => 1 # 2) c))))
  /\ search (searcher (Some predict_raising)) refund_query [] vs_empty refund_docs 2
     = Ok (py_take 2 (sort_desc c))
  /\ search (searcher None) refund_query [] vs_empty refund_docs 2
     = Ok (py_take 2 (sort_desc c)).
Proof.
  intro c.
  assert (Hf : forall rr, fused_results (searcher rr) refund_query [] vs_empty refund_docs 2 = Ok c)
    by (intro rr; vm_compute; reflexivity).
  split; [apply Hf | split; [| split]].
  - apply (proj2 (proj2 (C5_rerank_fail_soft_and_overwrite (searcher (Some predict_half))
             refund_query [] vs_empty refund_docs 2 c (Hf _))) predict_half); vm_compute; reflexivity.
  - apply (proj1 (proj2 (C5_rerank_fail_soft_and_overwrite (searcher (Some predict_raising))
             refund_query [] vs_empty refund_docs 2 c (Hf _))) predict_raising RuntimeError);
      vm_compute; reflexivity.
  - apply (proj1 (C5_rerank_fail_soft_and_overwrite (searcher None)
             refund_query [] vs_empty refund_docs 2 c (Hf _))); reflexivity.
Defined.

(** ** The keyword scorer *)

Lemma py_count_nonneg : forall sub s, (0 <= py_count sub s)%Z.
Proof. intros [| c sub] s; unfold py_count, py_len; lia. Qed.

Lemma tf_score_0 : tf_score 0 == 0.
Proof. reflexivity. Qed.

Lemma calculate_score_fold : forall text terms acc,
  fold_left (fun score term =>
      let count := py_count term (py_lower text) in
      if (0 <? count)%Z then score + tf_score count else score) terms acc
  == acc + tf_sum (map (fun term => py_count term (py_lower text)) terms).
Proof.
  intros text terms; induction terms as [| t terms IH]; intro acc; simpl.
  - ring.
  - rewrite IH. pose proof (py_count_nonneg t (py_lower text)).
    destruct (Z.ltb_spec 0 (py_count t (py_lower text))) as [Hc | Hc].
    + ring.
    + replace (py_count t (py_lower text)) with 0%Z by lia. rewrite tf_score_0. ring.
Qed.

Lemma tf_score_mono : forall a b, (0 <= a <= b)%Z -> tf_score a <= tf_score b.
Proof.
  intros a b Hab. unfold tf_score.
  set (qa := inject_Z a). set (qb := inject_Z b).
  assert (Ha : 0 <= qa) by (change 0 with (inject_Z 0); unfold qa; rewrite <- Zle_Qle; lia).
  assert (Hb : qa <= qb) by (unfold qa, qb; rewrite <- Zle_Qle; lia).
  assert (Hda : 0 < 1 + qa * (1 # 10)) by lra.
  assert (Hdb : 0 < 1 + qb * (1 # 10)) by lra.
  set (x := qa / (1 + qa * (1 # 10))).
  assert (Hx : x * (1 + qa * (1 # 10)) == qa).
  { unfold x. field. intro H; rewrite H in Hda; discriminate. }
  assert (Hx0 : 0 <= x) by (unfold x; apply Qle_shift_div_l; [exact Hda | lra]).
  assert (Hx10 : x <= 10) by nra.
  apply Qle_shift_div_l; [exact Hdb |].
  assert (0 <= (10 - x) * (qb - qa)) by (apply Qmult_le_0_compat; lra).
  nra.
Qed.

Lemma tf_sum_mono : forall cs1 cs2,
  Forall2 (fun a b => (0 <= a <= b)%Z) cs1 cs2 -> tf_sum cs1 <= tf_sum cs2.
Proof.
  intros cs1 cs2 H; induction H as [| a b cs1 cs2 Hab _ IH]; simpl; [apply Qle_refl |].
  apply Qplus_le_compat; [apply tf_score_mono, Hab | exact IH].
Qed.

Lemma positive_lt : forall q, positive q = true -> 0 < q.
Proof.
  intros q H; unfold positive in H. apply negb_true_iff in H.
  apply Qnot_le_lt. intro Hle. apply Qle_bool_iff in Hle. congruence.
Qed.

Lemma keyword_loop_positive : forall weight terms documents results,
  keyword_loop weight terms documents = Ok results ->
  forall r, In r results -> exists doc raw,
    In doc documents /\ doc_raw doc raw /\ chunk_id r = doc_id doc
    /\ document_id r = doc_document_id doc /\ content r = raw
    /\ 0 < calculate_score terms (py_lower raw).
Proof.
  intros weight terms documents; induction documents as [| doc docs IH]; intros results H r Hr.
  - simpl in H. injection H as <-. destruct Hr.
  - simpl in H.
    assert (Hraw : exists raw, doc_raw doc raw /\
              keyword_loop weight terms (doc :: docs)
              = (rest <- keyword_loop weight terms docs ;;
                 if positive (calculate_score terms (py_lower raw)) then
                   Ok (mkSearchResult (doc_id doc) (doc_document_id doc) raw
                         (calculate_score terms (py_lower raw) * weight) (S_ "keyword")
                         (match doc_metadata doc with Some m => m | None => [] end) :: rest)
                 else Ok rest)).
    { unfold doc_raw. simpl. destruct (doc_content doc) as [[s | z |] |]; simpl in H;
        try discriminate; eauto. }
    destruct Hraw as [raw [Hd Heq]]. simpl in Heq. rewrite Heq in H. clear Heq.
    destruct (keyword_loop weight terms docs) as [rest |] eqn:Hrest; [| discriminate].
    simpl in H. destruct (positive (calculate_score terms (py_lower raw))) eqn:Hpos.
    + injection H as <-. destruct Hr as [<- | Hr].
      * exists doc, raw. split; [left; reflexivity |]. split; [exact Hd |].
        split; [reflexivity |]. split; [reflexivity |].
        split; [reflexivity | apply positive_lt, Hpos].
      * destruct (IH rest eq_refl r Hr) as (d & rw & Hin & Hrest'). exists d, rw.
        split; [right; exact Hin | exact Hrest'].
    + injection H as <-. destruct (IH rest eq_refl r Hr) as (d & rw & Hin & Hrest'). exists d, rw.
      split; [right; exact Hin | exact Hrest'].
Qed.

(** Claim C6: [_calculate_score] is the sum over the query terms of
    [c / (1 + 0.1 c)], [c] the count of the term in the lowercased text; that
    sum does not decrease when any count grows; [c = 10] scores less than ten
    times [c = 1]; and every result of [KeywordSearch.search] comes from a
    document whose accumulated score is positive, so documents scoring zero
    are left out. *)
Theorem C6_keyword_score : 
  (forall query_terms text, calculate_score query_terms text == spec_keyword_score query_terms text)
  /\ (forall counts1 counts2, Forall2 (fun a b => (0 <= a <= b)%Z) counts1 counts2 ->
        tf_sum counts1 <= tf_sum counts2)
  /\ tf_score 10 < 10 * tf_score 1
  /\ (forall weight query documents top_k l,
        keyword_search weight query documents top_k = Ok l ->
        forall r, In r l -> exists doc raw,
          In doc documents /\ doc_raw doc raw /\ chunk_id r = doc_id doc
          /\ document_id r = doc_document_id doc /\ content r = raw
          /\ 0 < calculate_score (normalize_query query) (py_lower raw)).
Proof.
  split; [| split; [| split]].
  - intros terms text. unfold calculate_score, spec_keyword_score.
    rewrite calculate_score_fold. ring.
  - exact tf_sum_mono.
  - reflexivity.
  - intros weight query documents top_k l H r Hr.
    unfold keyword_search, catch_exc in H.
    destruct (keyword_search_body weight query documents top_k) as [l' |] eqn:Hb.
    + injection H as <-. unfold keyword_search_body in Hb.
      destruct (normalize_query query) as [| t ts] eqn:Hq; [injection Hb as <-; destruct Hr |].
      rewrite <- Hq in Hb. simpl in Hb.
      destruct (keyword_loop weight (normalize_query query) documents) as [res |] eqn:Hl;
        [| discriminate].
      injection Hb as <-. apply py_take_incl, sort_desc_in in Hr.
      rewrite Hq in Hl. exact (keyword_loop_positive _ _ _ _ Hl r Hr).
    + destruct (is_exception e); [injection H as <-; destruct Hr | discriminate].
Qed.

Lemma C6_keyword_score_witness :
  calculate_score [S_ "refund"; S_ "policy"] (S_ "Refund POLICY, refund.")
    == spec_keyword_score [S_ "refund"; S_ "policy"] (S_ "Refund POLICY, refund.")
  /\ tf_sum [1; 2]%Z <= tf_sum [3; 2]%Z
  /\ (forall r, In r (ok_or_nil (keyword_search (3 # 10) refund_query refund_docs 10)) ->
        exists doc raw, In doc refund_docs /\ doc_raw doc raw /\ chunk_id r = doc_id doc
          /\ document_id r = doc_document_id doc /\ content r = raw
          /\ 0 < calculate_score (normalize_query refund_query) (py_lower raw)).
Proof.
  destruct C6_keyword_score as (H1 & H2 & _ & H4).
  split; [apply H1 | split].
  - apply H2. repeat constructor; lia.
  - apply (H4 (3 # 10) refund_query refund_docs 10%Z). vm_compute; reflexivity.
Defined.

(** ** The semantic retriever *)

(** Claim C7, counterexample: a [MemoryError] raised by the vector store is
    turned into the empty list, not propagated. *)
Lemma C7_memory_error_swallowed :
  semantic_search (7 # 10) [] (vs_raising MemoryError) 10 (7 # 10) = Ok []
  /\ is_exception MemoryError = true.
Proof. split; reflexivity. Qed.

(** Claim C7 (as the code behaves): [SemanticSearch.search] returns the
    weighted hits when the lookup succeeds, the empty list when the lookup
    raises any exception deriving from [Exception] (resource exhaustion and
    configuration errors included), and propagates only exceptions outside
    [Exception] ([KeyboardInterrupt], [SystemExit], [CancelledError]). *)
Theorem C7_semantic_search_catches_all_exceptions :
  forall weight query_embedding vs top_k threshold,
  semantic_search weight query_embedding vs top_k threshold
  = match vs query_embedding top_k threshold with
    | Ok results_raw => Ok (map (of_hit weight) results_raw)
    | Err e => if is_exception e then Ok [] else Err e
    end.
Proof.
  intros weight qe vs top_k threshold.
  unfold semantic_search, semantic_search_body, catch_exc, bind.
  destruct (vs qe top_k threshold); reflexivity.
Qed.

Lemma C9_combine_keeps_semantic_fields_witness :
  find (has_key (7, 2)%Z) [sem_hit] = Some sem_hit /\ In (7, 2)%Z (map rkey kw_hits) /\
  exists e,
    filter (has_key (7, 2)%Z) (combine_results [sem_hit] kw_hits) = [e]
    /\ chunk_id e = chunk_id sem_hit /\ document_id e = document_id sem_hit
    /\ content e = content sem_hit /\ search_type e = search_type sem_hit
    /\ metadata e = metadata sem_hit
    /\ score e == sum_scores (7, 2)%Z [sem_hit] + sum_scores (7, 2)%Z kw_hits.
Proof.
  split; [reflexivity | split; [left; reflexivity |]].
  apply C9_combine_keeps_semantic_fields; [reflexivity | left; reflexivity].
Defined.

(** ** SemanticChunking *)

Lemma join_space_cons : forall x xs,
  join_space (x :: xs) = x ++ flat_map (fun p => " "%char :: p) xs.
Proof.
  intros x xs; revert x; induction xs as [| y ys IH]; intro x.
  - simpl. rewrite app_nil_r. reflexivity.
  - change (join_space (x :: y :: ys)) with (x ++ " "%char :: join_space (y :: ys)).
    rewrite IH. reflexivity.
Qed.

Lemma join_space_splice : forall xs ys zs, ys <> [] ->
  join_space (xs ++ join_space ys :: zs) = join_space (xs ++ ys ++ zs).
Proof.
  intros xs [| y ys] zs Hys; [congruence |].
  destruct xs as [| x xs]; cbn [app].
  - rewrite !join_space_cons, flat_map_app, app_assoc. reflexivity.
  - rewrite !join_space_cons, !flat_map_app. simpl flat_map.
    rewrite flat_map_app. repeat rewrite <- app_assoc. reflexivity.
Qed.

Lemma join_space_snoc : forall cur s, cur <> [] ->
  join_space (cur ++ [s]) = join_space cur ++ " "%char :: s.
Proof.
  intros [| c cur] s H; [congruence |]. cbn [app].
  rewrite !join_space_cons, flat_map_app. simpl. rewrite app_nil_r, <- app_assoc. reflexivity.
Qed.

Lemma py_len_join_snoc : forall x s,
  py_len (x ++ " "%char :: s) = (py_len x + 1 + py_len s)%Z.
Proof. intros x s; unfold py_len; rewrite length_app; simpl; lia. Qed.

Lemma existsb_rev : forall A (f : A -> bool) l, existsb f (rev l) = existsb f l.
Proof.
  intros A f l; induction l as [| x l IH]; simpl; [reflexivity |].
  rewrite existsb_app, IH; simpl. rewrite orb_false_r, orb_comm. reflexivity.
Qed.

Lemma lstrip_existsb : forall s,
  existsb (fun c => negb (is_space c)) (lstrip s) = existsb (fun c => negb (is_space c)) s.
Proof.
  induction s as [| c s IH]; simpl; [reflexivity |].
  destruct (is_space c) eqn:E; simpl; [exact IH | rewrite E; reflexivity].
Qed.

Lemma lstrip_nonempty : forall s,
  (match lstrip s with [] => false | _ :: _ => true end)
  = existsb (fun c => negb (is_space c)) s.
Proof.
  induction s as [| c s IH]; simpl; [reflexivity |].
  destruct (is_space c) eqn:E; simpl; [exact IH | reflexivity].
Qed.

Lemma rev_nonempty : forall A (x : list A),
  (match rev x with [] => false | _ :: _ => true end)
  = (match x with [] => false | _ :: _ => true end).
Proof.
  intros A [| a x]; simpl; [reflexivity |].
  destruct (rev x ++ [a]) eqn:E; [| reflexivity].
  apply app_eq_nil in E. destruct E as [_ E]; discriminate.
Qed.

(** [s.strip()] is non-empty exactly when [s] has a non-whitespace character. *)
Lemma nonblank_existsb : forall s, nonblank s = existsb (fun c => negb (is_space c)) s.
Proof.
  intro s; unfold nonblank, py_strip.
  rewrite rev_nonempty, lstrip_nonempty, existsb_rev, lstrip_existsb. reflexivity.
Qed.

Lemma nonblank_strip : forall s, nonblank (py_strip s) = nonblank s.
Proof.
  intro s; rewrite !nonblank_existsb; unfold py_strip.
  rewrite existsb_rev, lstrip_existsb, existsb_rev, lstrip_existsb. reflexivity.
Qed.

Lemma nonblank_app_l : forall x y, nonblank x = true -> nonblank (x ++ y) = true.
Proof. intros x y H; rewrite nonblank_existsb in *; rewrite existsb_app, H; reflexivity. Qed.

Lemma join_space_nonblank : forall x xs, nonblank x = true -> nonblank (join_space (x :: xs)) = true.
Proof. intros x xs H; rewrite join_space_cons; apply nonblank_app_l, H. Qed.

Lemma sentences_of_nonblank : forall text s, In s (sentences_of text) -> nonblank s = true.
Proof.
  intros text s H; unfold sentences_of in H. apply in_map_iff in H.
  destruct H as [x [<- Hx]]. apply filter_In in Hx. rewrite nonblank_strip. apply Hx.
Qed.

Lemma zseq_snoc : forall A (l : list A) x,
  zseq (List.length (l ++ [x])) = zseq (List.length l) ++ [Z.of_nat (List.length l)].
Proof.
  intros A l x; unfold zseq; rewrite length_app; simpl.
  rewrite Nat.add_1_r, seq_S, map_app. reflexivity.
Qed.

Lemma semantic_step_eq : forall self metadata chunks cur size idx s,
  Semantic.step self metadata (chunks, cur, size, idx) s
  = if (Semantic.max_chunk_size self <? size + py_len s)%Z
       && negb (match cur with [] => true | _ => false end)
    then (chunks ++ [Chunk.mk (join_space cur) idx (Semantic.chunk_metadata metadata)],
          [s], (py_len s + 1)%Z, (idx + 1)%Z)
    else (chunks, cur ++ [s], (size + (py_len s + 1))%Z, idx).
Proof.
  intros. unfold Semantic.step.
  destruct (_ && _); reflexivity.
Qed.

Lemma semantic_fold_join : forall self metadata ss chunks cur size idx,
  let '(chunks', cur', _, _) :=
    fold_left (Semantic.step self metadata) ss (chunks, cur, size, idx) in
  join_space (map Chunk.content chunks' ++ cur')
  = join_space (map Chunk.content chunks ++ cur ++ ss).
Proof.
  intros self metadata ss; induction ss as [| s ss IH]; intros chunks cur size idx.
  - simpl. rewrite app_nil_r. reflexivity.
  - cbn [fold_left]. rewrite semantic_step_eq.
    destruct ((Semantic.max_chunk_size self <? size + py_len s)%Z
              && negb (match cur with [] => true | _ => false end)) eqn:E.
    + specialize (IH (chunks ++ [Chunk.mk (join_space cur) idx (Semantic.chunk_metadata metadata)])
                     [s] (py_len s + 1)%Z (idx + 1)%Z).
      destruct (fold_left _ ss _) as [[[c' cur'] sz'] i'].
      rewrite IH, map_app. simpl.
      assert (Hcur : cur <> []) by (intro Hc; subst cur; simpl in E; rewrite andb_false_r in E; discriminate).
      rewrite <- app_assoc. simpl. rewrite join_space_splice by exact Hcur.
      reflexivity.
    + specialize (IH chunks (cur ++ [s]) (size + (py_len s + 1))%Z idx).
      destruct (fold_left _ ss _) as [[[c' cur'] sz'] i'].
      rewrite IH, <- app_assoc. reflexivity.
Qed.

Lemma semantic_inv_init : forall self metadata sentences,
  semantic_inv self metadata sentences ([], [], 0%Z, 0%Z).
Proof.
  intros; simpl. split; [reflexivity | split; [reflexivity | split; [constructor | left; auto]]].
Qed.

(** Closing the pending chunk keeps the invariant's part on [chunks]. *)
Lemma semantic_flush_ok : forall self metadata sentences chunks cur idx,
  map Chunk.chunk_index chunks = zseq (List.length chunks) ->
  idx = Z.of_nat (List.length chunks) ->
  Forall (semantic_chunk_ok self metadata sentences) chunks ->
  nonblank (join_space cur) = true ->
  ((py_len (join_space cur) <= Semantic.max_chunk_size self)%Z
   \/ exists s, cur = [s] /\ In s sentences) ->
  let chunks' := chunks ++ [Chunk.mk (join_space cur) idx (Semantic.chunk_metadata metadata)] in
  map Chunk.chunk_index chunks' = zseq (List.length chunks')
  /\ (idx + 1)%Z = Z.of_nat (List.length chunks')
  /\ Forall (semantic_chunk_ok self metadata sentences) chunks'.
Proof.
  intros self metadata sentences chunks cur idx Hidx Hi Hok Hnb Hb chunks'.
  unfold chunks'. split; [| split].
  - rewrite map_app, zseq_snoc, Hidx, Hi. reflexivity.
  - rewrite length_app; simpl; lia.
  - apply Forall_app; split; [exact Hok |]. constructor; [| constructor].
    split; [reflexivity | split; [exact Hnb |]]. cbn [Chunk.content].
    destruct Hb as [Hb | [s [-> Hs]]]; [left; exact Hb | right; exact Hs].
Qed.

Lemma semantic_inv_step : forall self metadata sentences st s,
  In s sentences -> (forall x, In x sentences -> nonblank x = true) ->
  semantic_inv self metadata sentences st ->
  semantic_inv self metadata sentences (Semantic.step self metadata st s).
Proof.
  intros self metadata sentences [[[chunks cur] size] idx] s Hs Hnb [Hidx [Hi [Hok Hcur]]].
  rewrite semantic_step_eq.
  destruct ((Semantic.max_chunk_size self <? size + py_len s)%Z
            && negb (match cur with [] => true | _ => false end)) eqn:E.
  - destruct Hcur as [[-> _] | [Hne [Hsz [Hnbc Hb]]]].
    { simpl in E. rewrite andb_false_r in E. discriminate. }
    destruct (semantic_flush_ok self metadata sentences chunks cur idx Hidx Hi Hok Hnbc Hb)
      as [H1 [H2 H3]].
    split; [exact H1 | split; [exact H2 | split; [exact H3 |]]].
    right. split; [discriminate |]. simpl.
    split; [reflexivity | split; [apply Hnb, Hs | right; exists s; auto]].
  - split; [exact Hidx | split; [exact Hi | split; [exact Hok |]]].
    right. destruct Hcur as [[-> ->] | [Hne [Hsz [Hnbc Hb]]]].
    + simpl. split; [discriminate | split; [reflexivity | split; [apply Hnb, Hs |]]].
      right; exists s; auto.
    + assert (Hle : (size + py_len s <= Semantic.max_chunk_size self)%Z).
      { destruct cur as [| c cur]; [congruence |].
        rewrite andb_true_r in E. apply Z.ltb_ge in E. exact E. }
      rewrite join_space_snoc by exact Hne. rewrite py_len_join_snoc.
      split; [destruct cur; [congruence | discriminate] |].
      split; [lia |]. split; [apply nonblank_app_l, Hnbc |]. left; lia.
Qed.

Lemma semantic_inv_fold : forall self metadata sentences ss st,
  incl ss sentences -> (forall x, In x sentences -> nonblank x = true) ->
  semantic_inv self metadata sentences st ->
  semantic_inv self metadata sentences (fold_left (Semantic.step self metadata) ss st).
Proof.
  intros self metadata sentences ss; induction ss as [| s ss IH]; intros st Hincl Hnb Hst;
    [exact Hst |].
  cbn [fold_left]. apply IH; [intros x Hx; apply Hincl; right; exact Hx | exact Hnb |].
  apply semantic_inv_step; [apply Hincl; left; reflexivity | exact Hnb | exact Hst].
Qed.

Lemma semantic_chunk_inv : forall self text metadata,
  let l := Semantic.chunk self text metadata in
  map Chunk.chunk_index l = zseq (List.length l)
  /\ Forall (semantic_chunk_ok self metadata (sentences_of text)) l.
Proof.
  intros self text metadata l. unfold l, Semantic.chunk.
  pose proof (semantic_inv_fold self metadata (sentences_of text) (sentences_of text)
                ([], [], 0%Z, 0%Z) (incl_refl _) (sentences_of_nonblank text)
                (semantic_inv_init _ _ _)) as H.
  destruct (fold_left _ _ _) as [[[chunks cur] size] idx].
  destruct H as [Hidx [Hi [Hok Hcur]]].
  destruct cur as [| p cur]; [split; assumption |].
  destruct Hcur as [[Hc _] | [Hne [Hsz [Hnbc Hb]]]]; [discriminate |].
  destruct (semantic_flush_ok self metadata (sentences_of text) chunks (p :: cur) idx
              Hidx Hi Hok Hnbc Hb) as [H1 [_ H3]].
  split; assumption.
Qed.

(** [SemanticChunking.chunk] loses no text and adds none: joining the chunk
    contents with single spaces gives the cleaned sentences joined with single
    spaces. *)
Theorem semantic_chunk_preserves_text : forall self text metadata,
  join_space (map Chunk.content (Semantic.chunk self text metadata))
  = join_space (sentences_of text).
Proof.
  intros self text metadata. unfold Semantic.chunk.
  pose proof (semantic_fold_join self metadata (sentences_of text) [] [] 0%Z 0%Z) as H.
  destruct (fold_left _ _ _) as [[[chunks cur] size] idx].
  simpl in H. destruct cur as [| p cur].
  - rewrite app_nil_r in H. exact H.
  - rewrite map_app. cbn [map Chunk.content].
    rewrite (join_space_splice _ (p :: cur) []) by discriminate.
    rewrite app_nil_r. exact H.
Qed.

(** [SemanticChunking.chunk] numbers its chunks 0, 1, 2, ... in order, tags
    each with [{**metadata, "type": "semantic"}], and never emits a chunk whose
    content is empty or whitespace only. *)
Theorem semantic_chunk_well_formed : forall self text metadata,
  let l := Semantic.chunk self text metadata in
  map Chunk.chunk_index l = zseq (List.length l)
  /\ Forall (fun c => Chunk.metadata c = Semantic.chunk_metadata metadata
                      /\ nonblank (Chunk.content c) = true) l.
Proof.
  intros self text metadata l. destruct (semantic_chunk_inv self text metadata) as [H1 H2].
  split; [exact H1 |]. eapply Forall_impl; [| exact H2].
  intros c [Hm [Hn _]]; split; assumption.
Qed.

(** A chunk of [SemanticChunking.chunk] longer than [max_chunk_size] is a
    single sentence: sentences are packed only while the chunk fits. *)
Theorem semantic_chunk_size_bound : forall self text metadata,
  Forall (fun c => (py_len (Chunk.content c) <= Semantic.max_chunk_size self)%Z
                   \/ In (Chunk.content c) (sentences_of text))
    (Semantic.chunk self text metadata).
Proof.
  intros self text metadata. destruct (semantic_chunk_inv self text metadata) as [_ H2].
  eapply Forall_impl; [| exact H2]. intros c [_ [_ Hb]]; exact Hb.
Qed.

(** ** SentenceChunking *)

Lemma zseq_S : forall n, zseq (S n) = zseq n ++ [Z.of_nat n].
Proof. intro n; unfold zseq; rewrite seq_S, map_app; reflexivity. Qed.

Lemma sentence_step_inv : forall self sentences metadata chunks idx i,
  map Chunk.chunk_index (rev chunks) = zseq (List.length chunks) ->
  idx = Z.of_nat (List.length chunks) ->
  Forall (fun c => nonblank (Chunk.content c) = true) chunks ->
  let '(chunks', idx') := Sentence.step self sentences metadata (chunks, idx) i in
  map Chunk.chunk_index (rev chunks') = zseq (List.length chunks')
  /\ idx' = Z.of_nat (List.length chunks')
  /\ Forall (fun c => nonblank (Chunk.content c) = true) chunks'.
Proof.
  intros self sentences metadata chunks idx i Hidx Hi Hok. unfold Sentence.step.
  destruct (nonblank _) eqn:Hnb; [| auto].
  cbn [rev List.length]. rewrite map_app, Hidx, zseq_S, Hi.
  split; [reflexivity | split; [lia | constructor; assumption]].
Qed.

Lemma sentence_fold_inv : forall self sentences metadata is chunks idx,
  map Chunk.chunk_index (rev chunks) = zseq (List.length chunks) ->
  idx = Z.of_nat (List.length chunks) ->
  Forall (fun c => nonblank (Chunk.content c) = true) chunks ->
  let '(chunks', idx') := fold_left (Sentence.step self sentences metadata) is (chunks, idx) in
  map Chunk.chunk_index (rev chunks') = zseq (List.length chunks')
  /\ Forall (fun c => nonblank (Chunk.content c) = true) chunks'.
Proof.
  intros self sentences metadata is; induction is as [| i is IH]; intros chunks idx Hidx Hi Hok.
  - split; assumption.
  - cbn [fold_left].
    pose proof (sentence_step_inv self sentences metadata chunks idx i Hidx Hi Hok) as H.
    destruct (Sentence.step self sentences metadata (chunks, idx) i) as [c' i'].
    destruct H as [H1 [H2 H3]]. exact (IH c' i' H1 H2 H3).
Qed.

(** [SentenceChunking.chunk], whenever it returns, numbers its chunks
    0, 1, 2, ... in order and every chunk content has a non-whitespace
    character. *)
Theorem sentence_chunk_well_formed : forall self text metadata l,
  Sentence.chunk self text metadata = Ok l ->
  map Chunk.chunk_index l = zseq (List.length l)
  /\ Forall (fun c => nonblank (Chunk.content c) = true) l.
Proof.
  intros self text metadata l. unfold Sentence.chunk.
  destruct (py_range _ _ _) as [is | e]; [| discriminate]. cbn [bind].
  intros [= <-].
  pose proof (sentence_fold_inv self (sentences_of text) metadata is [] 0%Z
                eq_refl eq_refl (Forall_nil _)) as H.
  destruct (fold_left _ _ _) as [chunks idx]. cbn [fst].
  destruct H as [H1 H2]. rewrite length_rev. split; [exact H1 |].
  apply Forall_rev, H2.
Qed.

Lemma Z_div_ceil_lt : forall n s k, (0 < s)%Z -> (0 <= k)%Z ->
  (k < (n + s - 1) / s)%Z -> (0 <= k * s < n)%Z.
Proof.
  intros n s k Hs Hk Hlt.
  assert (H1 : (k + 1 <= (n + s - 1) / s)%Z) by lia.
  assert (H2 : ((k + 1) * s <= (n + s - 1) / s * s)%Z) by (apply Z.mul_le_mono_nonneg_r; lia).
  pose proof (Z.mul_div_le (n + s - 1) s Hs) as H3.
  rewrite (Z.mul_comm s) in H3. nia.
Qed.

Lemma py_slice_cons : forall A (l : list A) i j,
  (0 <= i < Z.of_nat (List.length l))%Z -> (i < j)%Z ->
  exists x xs, py_slice l i j = x :: xs /\ In x l.
Proof.
  intros A l i j Hi Hij. unfold py_slice, slice_bound.
  rewrite (proj2 (Z.ltb_ge i 0)) by lia.
  rewrite (proj2 (Z.ltb_ge j 0)) by lia.
  rewrite (Z.min_l i) by lia.
  pose proof (firstn_skipn (Z.to_nat i) l) as Hfs.
  pose proof (length_skipn (Z.to_nat i) l) as Hlen.
  destruct (skipn (Z.to_nat i) l) as [| x xs] eqn:Hsk; [simpl in Hlen; lia |].
  destruct (Z.to_nat (Z.min j (Z.of_nat (List.length l)) - i)) as [| m] eqn:Hm; [lia |].
  exists x, (firstn m xs). split; [reflexivity |].
  rewrite <- Hfs. apply in_or_app; right; left; reflexivity.
Qed.

Lemma sentence_fold_contents : forall self sentences metadata is chunks idx,
  (0 < Sentence.sentences_per_chunk self)%Z ->
  (forall x, In x sentences -> nonblank x = true) ->
  (forall i, In i is -> (0 <= i < Z.of_nat (List.length sentences))%Z) ->
  map Chunk.content (rev (fst (fold_left (Sentence.step self sentences metadata) is (chunks, idx))))
  = map Chunk.content (rev chunks)
    ++ map (fun i => join_space (py_slice sentences i (i + Sentence.sentences_per_chunk self))) is.
Proof.
  intros self sentences metadata is; induction is as [| i is IH]; intros chunks idx Hspc Hnb His.
  - simpl. rewrite app_nil_r. reflexivity.
  - cbn [fold_left].
    destruct (py_slice_cons _ sentences i (i + Sentence.sentences_per_chunk self))
      as [x [xs [Hsl Hx]]]; [apply His; left; reflexivity | lia |].
    assert (Hstep : Sentence.step self sentences metadata (chunks, idx) i
              = (Chunk.mk (join_space (py_slice sentences i (i + Sentence.sentences_per_chunk self))) idx
                   (dict_set (S_ "num_sentences")
                      (VInt (Z.of_nat (List.length (py_slice sentences i (i + Sentence.sentences_per_chunk self)))))
                      (dict_set (S_ "sentence_end")
                         (VInt (i + Z.of_nat (List.length (py_slice sentences i (i + Sentence.sentences_per_chunk self)))))
                         (dict_set (S_ "sentence_start") (VInt i) metadata))) :: chunks, (idx + 1)%Z)).
    { unfold Sentence.step. rewrite Hsl, join_space_nonblank by (apply Hnb, Hx). reflexivity. }
    rewrite Hstep, IH; [| exact Hspc | exact Hnb | intros j Hj; apply His; right; exact Hj].
    cbn [rev map]. rewrite map_app, <- app_assoc. reflexivity.
Qed.

(** With [0 < sentences_per_chunk] and [overlap_sentences < sentences_per_chunk],
    [SentenceChunking.chunk] returns one chunk per window start
    [0, step, 2 step, ...] below the number of sentences ([step] is
    [sentences_per_chunk - overlap_sentences]); the chunk at start [i] holds
    [" ".join(sentences[i:i + sentences_per_chunk])], so the blank test drops
    no window. *)
Theorem sentence_chunk_windows : forall sentences_per_chunk overlap_sentences text metadata,
  (0 < sentences_per_chunk)%Z -> (overlap_sentences < sentences_per_chunk)%Z ->
  let sentences := sentences_of text in
  let step := (sentences_per_chunk - overlap_sentences)%Z in
  exists l, Sentence.chunk (Sentence.init sentences_per_chunk overlap_sentences) text metadata = Ok l
  /\ map Chunk.content l
     = map (fun k => join_space (py_slice sentences (Z.of_nat k * step)
                                   (Z.of_nat k * step + sentences_per_chunk)))
           (seq 0 (Z.to_nat ((Z.of_nat (List.length sentences) + step - 1) / step))).
Proof.
  intros spc ops text metadata Hspc Hops sentences step.
  unfold Sentence.chunk, py_range. cbn [Sentence.sentences_per_chunk Sentence.overlap_sentences].
  fold sentences step.
  rewrite (proj2 (Z.eqb_neq step 0)) by (unfold step; lia).
  rewrite (proj2 (Z.ltb_lt 0 step)) by (unfold step; lia).
  cbn [bind]. eexists; split; [reflexivity |].
  rewrite (sentence_fold_contents (Sentence.init spc ops) sentences metadata _ [] 0%Z Hspc
             (sentences_of_nonblank text)).
  - cbn [rev map app Sentence.sentences_per_chunk]. rewrite map_map, Z.sub_0_r. reflexivity.
  - intros i Hi. apply in_map_iff in Hi. destruct Hi as [k [<- Hk]].
    apply in_seq in Hk. apply Z_div_ceil_lt; [unfold step; lia | lia |].
    rewrite Z.sub_0_r in Hk. lia.
Qed.

Lemma sentence_chunk_windows_witness :
  (0 < 2)%Z /\ (1 < 2)%Z /\
  exists l, Sentence.chunk (Sentence.init 2 1) lorem [] = Ok l
  /\ map Chunk.content l
     = map (fun k => join_space (py_slice (sentences_of lorem) (Z.of_nat k * (2 - 1))
                                   (Z.of_nat k * (2 - 1) + 2)))
           (seq 0 (Z.to_nat ((Z.of_nat (List.length (sentences_of lorem)) + (2 - 1) - 1) / (2 - 1)))).
Proof.
  split; [lia | split; [lia |]].
  exact (sentence_chunk_windows 2 1 lorem [] ltac:(lia) ltac:(lia)).
Defined.

(** [SentenceChunking] accepts [sentences_per_chunk = overlap_sentences];
    [chunk] then raises [ValueError] (from [range] with step 0), for every
    text, even an empty one, and every metadata. *)
Theorem sentence_chunk_zero_step_raises : forall n text metadata,
  Sentence.chunk (Sentence.init n n) text metadata = Err ValueError.
Proof.
  intros n text metadata. unfold Sentence.chunk, py_range.
  cbn [Sentence.sentences_per_chunk Sentence.overlap_sentences].
  rewrite Z.sub_diag. reflexivity.
Qed.

(** ** FixedSizeChunking: termination and its limit *)

(** With [overlap < chunk_size] and [overlap <= 0.8 * chunk_size + 1], a pass
    of the loop moves [start] strictly forward. *)
Lemma fixed_loop_advance : forall self text metadata fuel start chunk_index chunks,
  (FixedSize.overlap self < FixedSize.chunk_size self)%Z ->
  (5 * FixedSize.overlap self <= 4 * FixedSize.chunk_size self + 5)%Z ->
  (start < py_len text)%Z ->
  exists c start',
    FixedSize.loop self text metadata (S fuel) start chunk_index chunks
    = FixedSize.loop self text metadata fuel start' (chunk_index + 1) (chunks ++ [c])
    /\ (start < start')%Z /\ Chunk.chunk_index c = chunk_index.
Proof.
  intros self text metadata fuel start idx chunks Hlt Hle Hstart.
  cbn [FixedSize.loop]. rewrite (proj2 (Z.ltb_lt _ _) Hstart).
  destruct (Z.ltb_spec (start + FixedSize.chunk_size self) (py_len text)) as [Hend | Hend].
  - set (ct := py_slice text start (start + FixedSize.chunk_size self)).
    destruct (Z.ltb_spec (4 * FixedSize.chunk_size self) (5 * py_rfind "."%char ct));
      cbv beta iota; eexists; eexists; (split; [reflexivity | split; [lia | reflexivity]]).
  - cbv beta iota; eexists; eexists; split; [reflexivity | split; [lia | reflexivity]].
Qed.

Lemma fixed_loop_terminates : forall self text metadata fuel start chunk_index chunks,
  (FixedSize.overlap self < FixedSize.chunk_size self)%Z ->
  (5 * FixedSize.overlap self <= 4 * FixedSize.chunk_size self + 5)%Z ->
  (Z.to_nat (py_len text - start) < fuel)%nat ->
  map Chunk.chunk_index chunks = zseq (List.length chunks) ->
  chunk_index = Z.of_nat (List.length chunks) ->
  exists l, FixedSize.loop self text metadata fuel start chunk_index chunks = Ret l
    /\ map Chunk.chunk_index l = zseq (List.length l)
    /\ (List.length l <= List.length chunks + Z.to_nat (py_len text - start))%nat.
Proof.
  intros self text metadata fuel; induction fuel as [| fuel IH];
    intros start idx chunks Hlt Hle Hfuel Hidx Hi; [lia |].
  destruct (Z.ltb_spec start (py_len text)) as [Hs | Hs].
  - destruct (fixed_loop_advance self text metadata fuel start idx chunks Hlt Hle Hs)
      as [c [start' [-> [Hadv Hc]]]].
    destruct (IH start' (idx + 1)%Z (chunks ++ [c])) as [l [Hl [H1 H2]]];
      [exact Hlt | exact Hle | lia | rewrite map_app, zseq_snoc, Hidx; simpl; rewrite Hc, Hi; reflexivity
       | rewrite length_app; simpl; lia |].
    exists l. split; [exact Hl | split; [exact H1 |]].
    rewrite length_app in H2; simpl in H2; lia.
  - cbn [FixedSize.loop]. rewrite (proj2 (Z.ltb_ge _ _) Hs).
    exists chunks. split; [reflexivity | split; [exact Hidx | lia]].
Qed.

(** When [overlap < chunk_size] and [overlap <= 0.8 * chunk_size + 1] (the
    defaults 1024 and 128 qualify), [FixedSizeChunking.chunk] returns after at
    most [len(text)] passes of its loop, with at most [len(text)] chunks
    numbered 0, 1, 2, ... in order. *)
Theorem fixed_chunk_terminates : forall chunk_size overlap text metadata,
  (overlap < chunk_size)%Z -> (5 * overlap <= 4 * chunk_size + 5)%Z ->
  exists l, FixedSize.chunk (FixedSize.init chunk_size overlap) text metadata (S (List.length text)) = Ret l
    /\ map Chunk.chunk_index l = zseq (List.length l)
    /\ (List.length l <= List.length text)%nat.
Proof.
  intros cs ov text metadata Hlt Hle. unfold FixedSize.chunk.
  destruct (fixed_loop_terminates (FixedSize.init cs ov) text metadata (S (List.length text)) 0%Z 0%Z []
              Hlt Hle) as [l [Hl [H1 H2]]];
    [unfold py_len; lia | reflexivity | reflexivity |].
  exists l. split; [exact Hl | split; [exact H1 |]]. unfold py_len in H2. simpl in H2. lia.
Qed.

Lemma fixed_chunk_terminates_witness :
  (128 < 1024)%Z /\ (5 * 128 <= 4 * 1024 + 5)%Z /\
  exists l, FixedSize.chunk (FixedSize.init 1024 128) lorem [] (S (List.length lorem)) = Ret l
    /\ map Chunk.chunk_index l = zseq (List.length l)
    /\ (List.length l <= List.length lorem)%nat.
Proof.
  split; [lia | split; [lia |]].
  exact (fixed_chunk_terminates 1024 128 lorem [] ltac:(lia) ltac:(lia)).
Defined.

(** [overlap < chunk_size] alone does not make [FixedSizeChunking.chunk]
    return: on any text longer than [chunk_size] whose first window
    [text[0:chunk_size]] has its last period at index [p], with
    [0.8 * chunk_size < p < chunk_size] and [overlap = p + 1], the pass ends
    at [p + 1] and the next one starts again at [p + 1 - overlap = 0], for
    ever, without raising. *)
Theorem fixed_chunk_period_stall : forall (chunk_size : Z) (p : nat) text metadata,
  (4 * chunk_size < 5 * Z.of_nat p)%Z -> (Z.of_nat p < chunk_size)%Z ->
  (chunk_size < py_len text)%Z ->
  py_rfind "."%char (py_slice text 0 chunk_size) = Z.of_nat p ->
  diverges (FixedSize.chunk (FixedSize.init chunk_size (Z.of_nat p + 1)) text metadata).
Proof.
  intros cs p text metadata H45 Hp Hlen Hrf.
  assert (H : forall fuel idx chunks,
    FixedSize.loop (FixedSize.init cs (Z.of_nat p + 1)) text metadata fuel 0 idx chunks = OutOfFuel).
  { intro fuel; induction fuel as [| fuel IH]; intros idx chunks; [reflexivity |].
    cbn [FixedSize.loop FixedSize.chunk_size FixedSize.overlap].
    rewrite (proj2 (Z.ltb_lt 0 (py_len text))) by lia.
    rewrite Z.add_0_l.
    rewrite (proj2 (Z.ltb_lt cs (py_len text))) by exact Hlen.
    rewrite Hrf.
    rewrite (proj2 (Z.ltb_lt (4 * cs) (5 * Z.of_nat p))) by exact H45.
    cbv beta iota.
    replace (0 + Z.of_nat p + 1 - (Z.of_nat p + 1))%Z with 0%Z by lia.
    apply IH. }
  intro fuel. apply H.
Qed.

Lemma fixed_chunk_period_stall_witness :
  (4 * 20 < 5 * Z.of_nat 17)%Z /\ (Z.of_nat 17 < 20)%Z /\
  (20 < py_len (period_text 17 3))%Z /\
  py_rfind "."%char (py_slice (period_text 17 3) 0 20) = Z.of_nat 17 /\
  diverges (FixedSize.chunk (FixedSize.init 20 (Z.of_nat 17 + 1)) (period_text 17 3) []).
Proof.
  assert (Hl : (20 < py_len (period_text 17 3))%Z) by (vm_compute; reflexivity).
  assert (Hr : py_rfind "."%char (py_slice (period_text 17 3) 0 20) = Z.of_nat 17)
    by (vm_compute; reflexivity).
  split; [lia | split; [lia | split; [exact Hl | split; [exact Hr |]]]].
  exact (fixed_chunk_period_stall 20 17 (period_text 17 3) [] ltac:(lia) ltac:(lia) Hl Hr).
Defined.

(** ** The fusion keeps one entry per key *)

Lemma nodup_of_filter_le1 : forall (d : list ((Z * Z) * SearchResult)),
  (forall k, (List.length (filter (fun e => key_eqb (fst e) k) d) <= 1)%nat) ->
  NoDup (map fst d).
Proof.
  induction d as [| e d IH]; intro H; simpl; [constructor |].
  constructor.
  - intro Hin. apply in_map_iff in Hin. destruct Hin as [e' [He' Hin]].
    specialize (H (fst e)). simpl in H.
    rewrite (proj2 (key_eqb_true _ _) eq_refl) in H. simpl in H.
    assert (Hf : In e' (filter (fun e0 => key_eqb (fst e0) (fst e)) d))
      by (apply filter_In; split; [exact Hin | apply key_eqb_true; exact He']).
    destruct (filter _ d) as [| x l]; [destruct Hf | simpl in H; lia].
  - apply IH. intro k. specialize (H k). simpl in H.
    destruct (key_eqb (fst e) k); simpl in H; lia.
Qed.

Lemma combine_results_keys_fst : forall sem kw,
  map rkey (combine_results sem kw) = map fst (fold_left combine_step (sem ++ kw) []).
Proof.
  intros sem kw. rewrite combine_results_fold, map_map.
  destruct (combined_inv_fold (sem ++ kw)) as [Hkeys _].
  apply map_ext_in. intros e He. symmetry. apply Hkeys, He.
Qed.

Lemma combine_results_keys_aux : forall semantic_results keyword_results,
  NoDup (map rkey (combine_results semantic_results keyword_results))
  /\ forall k, In k (map rkey (combine_results semantic_results keyword_results))
               <-> In k (map rkey (semantic_results ++ keyword_results)).
Proof.
  intros sem kw. rewrite combine_results_keys_fst.
  destruct (combined_inv_fold (sem ++ kw)) as [Hkeys Hk].
  set (d := fold_left combine_step (sem ++ kw) []) in *.
  split.
  - apply nodup_of_filter_le1. intro k. specialize (Hk k).
    destruct (find (has_key k) (sem ++ kw)).
    + destruct Hk as [e [-> _]]. simpl; lia.
    + rewrite Hk. simpl; lia.
  - intro k. split.
    + intro Hin. apply in_map_iff in Hin. destruct Hin as [e [<- He]].
      specialize (Hk (fst e)).
      destruct (find (has_key (fst e)) (sem ++ kw)) as [r |] eqn:Hf.
      * apply find_some in Hf. destruct Hf as [Hr Hkr].
        unfold has_key in Hkr. apply key_eqb_true in Hkr. rewrite <- Hkr.
        apply in_map, Hr.
      * assert (Hfe : In e (filter (fun e0 => key_eqb (fst e0) (fst e)) d))
          by (apply filter_In; split; [exact He | apply key_eqb_true; reflexivity]).
        rewrite Hk in Hfe. destruct Hfe.
    + intro Hin. destruct (find_has_key_in k _ Hin) as [r Hr].
      specialize (Hk k). rewrite Hr in Hk. destruct Hk as [e [Hfe _]].
      assert (He : In e (filter (fun e0 => key_eqb (fst e0) k) d)) by (rewrite Hfe; left; reflexivity).
      apply filter_In in He. destruct He as [He Hek]. apply key_eqb_true in Hek.
      rewrite <- Hek. apply in_map, He.
Qed.

(** [_combine_results] returns one result per distinct key
    [(chunk_id, document_id)] of its two inputs: no key twice, no key that is
    in neither input, and none of theirs missing. *)
Theorem combine_results_keys : forall semantic_results keyword_results,
  NoDup (map rkey (combine_results semantic_results keyword_results))
  /\ forall k, In k (map rkey (combine_results semantic_results keyword_results))
               <-> In k (map rkey (semantic_results ++ keyword_results)).
Proof. exact combine_results_keys_aux. Qed.


(** ** Reranking keeps the results and their order *)

Lemma same_but_score_refl : forall l, Forall2 same_but_score l l.
Proof. induction l as [| r l IH]; constructor; [repeat split | exact IH]. Qed.

Lemma zip_update_same : forall results scores,
  Forall2 same_but_score (zip_update results scores) results.
Proof.
  induction results as [| r rs IH]; intros [| s ss]; simpl.
  - constructor.
  - constructor.
  - apply same_but_score_refl.
  - constructor; [apply same_but_score_set | apply IH].
Qed.

Lemma zip_update_score_list : forall results scores,
  map score (zip_update results scores)
  = firstn (List.length results) scores ++ map score (skipn (List.length scores) results).
Proof.
  induction results as [| r rs IH]; intros [| s ss]; simpl; try reflexivity.
  rewrite IH. reflexivity.
Qed.

Lemma rerank_results_same : forall reranker query results results',
  rerank_results reranker query results = Ok results' ->
  Forall2 same_but_score results' results.
Proof.
  intros rr query results results' H. unfold rerank_results in H.
  destruct rr as [predict |]; [| injection H as <-; apply same_but_score_refl].
  destruct results as [| r rs]; [injection H as <-; constructor |].
  unfold catch_exc, bind in H.
  destruct (predict _) as [scores | e].
  - injection H as <-. exact (zip_update_same (r :: rs) scores).
  - destruct (is_exception e); [| discriminate]. injection H as <-. apply same_but_score_refl.
Qed.

(** [_rerank_results] never adds, drops or reorders results and changes no
    field but [score], whatever the reranker answers or raises; when
    [predict] answers a list of scores of any length, [zip] overwrites the
    scores of the first [min(len(scores), len(results))] results in order and
    the others keep their fused score. *)
Theorem rerank_results_shape : forall reranker query results results',
  rerank_results reranker query results = Ok results' ->
  Forall2 same_but_score results' results
  /\ forall predict scores, reranker = Some predict ->
     predict (map (fun r => (query, content r)) results) = Ok scores ->
     map score results'
     = firstn (List.length results) scores ++ map score (skipn (List.length scores) results).
Proof.
  intros rr query results results' H. unfold rerank_results in H.
  destruct rr as [predict |].
  - destruct results as [| r rs].
    + injection H as <-. split; [constructor |].
      intros p scores _ _. simpl. destruct scores; reflexivity.
    + unfold catch_exc, bind in H.
      destruct (predict (map (fun r0 => (query, content r0)) (r :: rs))) as [scores | e] eqn:Hp.
      * injection H as <-. split; [exact (zip_update_same (r :: rs) scores) |].
        intros p scores' [= <-] Hp'. rewrite Hp in Hp'. injection Hp' as <-.
        exact (zip_update_score_list (r :: rs) scores).
      * destruct (is_exception e); [| discriminate]. injection H as <-.
        split; [apply same_but_score_refl |].
        intros p scores' [= <-] Hp'. rewrite Hp in Hp'. discriminate.
  - injection H as <-. split; [apply same_but_score_refl |].
    intros p scores [=].
Qed.

Lemma rerank_results_shape_witness :
  rerank_results (Some (fun _ => Ok [9 # 10])) refund_query kw_hits
    = Ok (ok_or_nil (rerank_results (Some (fun _ => Ok [9 # 10])) refund_query kw_hits))
  /\ Forall2 same_but_score
       (ok_or_nil (rerank_results (Some (fun _ => Ok [9 # 10])) refund_query kw_hits)) kw_hits
  /\ map score (ok_or_nil (rerank_results (Some (fun _ => Ok [9 # 10])) refund_query kw_hits))
     = firstn (List.length kw_hits) [9 # 10] ++ map score (skipn (List.length [9 # 10]) kw_hits).
Proof.
  assert (H : rerank_results (Some (fun _ => Ok [9 # 10])) refund_query kw_hits
                = Ok (ok_or_nil (rerank_results (Some (fun _ => Ok [9 # 10])) refund_query kw_hits)))
    by (vm_compute; reflexivity).
  split; [exact H |].
  destruct (rerank_results_shape _ _ _ _ H) as [H1 H2].
  split; [exact H1 |]. apply (H2 (fun _ => Ok [9 # 10])); reflexivity.
Defined.

(** ** HybridSearch.search returns each chunk at most once *)

Lemma same_but_score_keys : forall l l',
  Forall2 same_but_score l' l -> map rkey l' = map rkey l.
Proof.
  intros l l' H; induction H as [| a b l' l Hab _ IH]; simpl; [reflexivity |].
  destruct Hab as [H1 [H2 _]]. unfold rkey at 1 3. rewrite H1, H2, IH. reflexivity.
Qed.

Lemma insert_desc_perm : forall r l, Permutation (insert_desc r l) (r :: l).
Proof.
  intros r l; induction l as [| r' l IH]; simpl; [reflexivity |].
  destruct (Qle_bool (score r') (score r)); [reflexivity |].
  eapply perm_trans; [apply perm_skip, IH | apply perm_swap].
Qed.

Lemma sort_desc_perm : forall l, Permutation (sort_desc l) l.
Proof.
  induction l as [| r l IH]; simpl; [reflexivity |].
  eapply perm_trans; [apply insert_desc_perm | apply perm_skip, IH].
Qed.

Lemma nodup_firstn : forall A n (l : list A), NoDup l -> NoDup (firstn n l).
Proof.
  intros A n; induction n as [| n IH]; intros l H; simpl; [constructor |].
  destruct l as [| a l]; [constructor |].
  apply NoDup_cons_iff in H. destruct H as [Ha Hl]. constructor; [| apply IH, Hl].
  intro Hin. apply Ha. apply in_firstn_skipn with (m := O) in Hin. exact Hin.
Qed.


Lemma fused_results_nodup : forall self query qe vs docs top_k c,
  fused_results self query qe vs docs top_k = Ok c -> NoDup (map rkey c).
Proof.
  intros self query qe vs docs top_k c H. unfold fused_results, bind in H.
  destruct (semantic_search _ _ _ _ _) as [sem |]; [| discriminate].
  destruct (keyword_search _ _ _ _) as [kw |]; [| discriminate].
  injection H as <-. apply combine_results_keys_aux.
Qed.

(** [HybridSearch.search] never returns two results with the same
    [(chunk_id, document_id)], with or without a reranker. *)
Theorem search_unique_keys : forall self query query_embedding vs keyword_documents top_k l,
  search self query query_embedding vs keyword_documents top_k = Ok l ->
  NoDup (map rkey l).
Proof.
  intros self query qe vs docs top_k l. unfold search, catch_exc, bind.
  destruct (fused_results self query qe vs docs top_k) as [c | e] eqn:Hf.
  - pose proof (fused_results_nodup _ _ _ _ _ _ _ Hf) as Hc.
    destruct (match reranker self, c with
              | Some _, _ :: _ => rerank_results (reranker self) query c
              | _, _ => Ok c end) as [c' | e] eqn:Hr.
    + intros [= <-].
      assert (Hk : map rkey c' = map rkey c).
      { destruct (reranker self) as [p |]; destruct c as [| r0 c0];
          try (injection Hr as <-; reflexivity).
        apply same_but_score_keys. eapply rerank_results_same. exact Hr. }
      destruct (py_take_firstn _ top_k (sort_desc c')) as [m ->].
      rewrite <- firstn_map. apply nodup_firstn.
      eapply Permutation_NoDup; [apply Permutation_map, Permutation_sym, sort_desc_perm |].
      rewrite Hk; exact Hc.
    + destruct (is_exception e); intros [= <-]; constructor.
  - destruct (is_exception e); intros [= <-]; constructor.
Qed.

Lemma search_unique_keys_witness :
  search (searcher None) refund_query [] vs_empty refund_docs 3
    = Ok (ok_or_nil (search (searcher None) refund_query [] vs_empty refund_docs 3))
  /\ NoDup (map rkey (ok_or_nil (search (searcher None) refund_query [] vs_empty refund_docs 3))).
Proof.
  assert (H : search (searcher None) refund_query [] vs_empty refund_docs 3
                = Ok (ok_or_nil (search (searcher None) refund_query [] vs_empty refund_docs 3)))
    by (vm_compute; reflexivity).
  split; [exact H | exact (search_unique_keys _ _ _ _ _ _ _ H)].
Defined.

(** ** KeywordSearch *)

Lemma pystr_eqb_true : forall a b, pystr_eqb a b = true <-> a = b.
Proof.
  induction a as [| x a IH]; intros [| y b]; simpl; split; intro H; try discriminate; auto.
  - apply andb_true_iff in H. destruct H as [Hxy Hab].
    apply Ascii.eqb_eq in Hxy. apply IH in Hab. subst; reflexivity.
  - injection H as -> ->. rewrite Ascii.eqb_refl. simpl. apply IH. reflexivity.
Qed.

Lemma to_lower_not_upper : forall c, is_upper (to_lower c) = false.
Proof.
  intro c. unfold to_lower. destruct (is_upper c) eqn:E; [| exact E].
  unfold is_upper in *. apply andb_true_iff in E. destruct E as [E1 E2].
  apply Nat.leb_le in E1. apply Nat.leb_le in E2.
  rewrite nat_ascii_embedding by lia.
  destruct (Nat.leb_spec (nat_of_ascii c + 32) 90); [lia | apply andb_false_r].
Qed.

(** Every character of a piece of [str.split()] is a non-whitespace
    character of the input. *)
Lemma split_ws_go_chars : forall (P : ascii -> Prop) s cur,
  (forall c, In c cur -> P c) ->
  (forall c, In c s -> is_space c = false -> P c) ->
  forall t, In t (split_ws_go cur s) -> forall c, In c t -> P c.
Proof.
  intros P s; induction s as [| c0 s IH]; intros cur Hcur Hs t Ht c Hc; simpl in Ht.
  - destruct cur as [| x cur]; [destruct Ht |].
    destruct Ht as [<- | []]. apply Hcur, in_rev, Hc.
  - destruct (is_space c0) eqn:Esp.
    + assert (Hrest : In t (split_ws_go [] s) -> P c).
      { intro Ht'. apply (IH [] (fun _ H => match H with end)
                         (fun c1 H1 => Hs c1 (or_intror H1)) t Ht' c Hc). }
      destruct cur as [| x cur]; [exact (Hrest Ht) |].
      destruct Ht as [<- | Ht]; [apply Hcur, in_rev, Hc | exact (Hrest Ht)].
    + apply (IH (c0 :: cur)) with (t := t); auto.
      * intros c1 [<- | H1]; [apply Hs; [left; reflexivity | exact Esp] | apply Hcur, H1].
      * intros c1 H1 H2. apply Hs; [right; exact H1 | exact H2].
Qed.

(** On a query of ASCII characters (code points below 128, where
    [str.lower] and the [\w] class act as [to_lower] and [is_word] do),
    [_normalize_query] yields terms of at least three characters, none a
    stopword, each made of lowercase word characters only (digits, letters,
    [_]): punctuation became a separator and case was folded. *)
Theorem normalize_query_terms : forall query t,
  Forall (fun c => (nat_of_ascii c < 128)%nat) query ->
  In t (normalize_query query) ->
  (3 <= List.length t)%nat /\ ~ In t stopwords
  /\ Forall (fun c => is_word c = true /\ is_upper c = false) t.
Proof.
  intros query t _ H. unfold normalize_query in H. apply filter_In in H.
  destruct H as [Hin Hf]. apply andb_true_iff in Hf. destruct Hf as [Hstop Hlen].
  split; [apply Nat.ltb_lt in Hlen; lia |]. split.
  - intro Hs. apply negb_true_iff in Hstop.
    assert (Hex : existsb (pystr_eqb t) stopwords = true)
      by (apply existsb_exists; exists t; split; [exact Hs | apply pystr_eqb_true; reflexivity]).
    congruence.
  - apply Forall_forall.
    intros c0 Hc0.
    apply (split_ws_go_chars (fun c => is_word c = true /\ is_upper c = false)
             (map (fun c => if is_word c || is_space c then c else " "%char) (py_lower query)) []
             (fun c H => match H with end)) with (t := t); [| exact Hin | exact Hc0].
    intros c Hc Hsp. apply in_map_iff in Hc. destruct Hc as [y [Hy Hyin]].
    unfold py_lower in Hyin. apply in_map_iff in Hyin. destruct Hyin as [z [<- _]].
    destruct (is_word (to_lower z) || is_space (to_lower z)) eqn:Ew.
    + subst c. rewrite Hsp, orb_false_r in Ew. split; [exact Ew | apply to_lower_not_upper].
    + subst c. discriminate.
Qed.

Lemma keyword_loop_err : forall weight terms documents e,
  keyword_loop weight terms documents = Err e -> e = AttributeError.
Proof.
  intros weight terms documents; induction documents as [| doc docs IH]; intros e H;
    simpl in H; [discriminate |].
  destruct (doc_content doc) as [[s | z |] |]; simpl in H;
    try (injection H as <-; reflexivity);
    (destruct (keyword_loop weight terms docs) as [rest | e'] eqn:Hr;
     [destruct (positive _); discriminate | injection H as <-; apply IH; reflexivity]).
Qed.

Lemma keyword_loop_type : forall weight terms documents results,
  keyword_loop weight terms documents = Ok results ->
  Forall (fun r => search_type r = S_ "keyword") results.
Proof.
  intros weight terms documents; induction documents as [| doc docs IH]; intros results H;
    simpl in H; [injection H as <-; constructor |].
  destruct (doc_content doc) as [[s | z |] |]; simpl in H; try discriminate;
    (destruct (keyword_loop weight terms docs) as [rest | e'] eqn:Hr; [| discriminate];
     destruct (positive _); injection H as <-;
     [constructor; [reflexivity | apply IH; reflexivity] | apply IH; reflexivity]).
Qed.

(** [KeywordSearch.search] always returns (its only possible error, the
    [AttributeError] of a non-string content, is caught); its list has
    non-increasing scores, at most [top_k] elements for [top_k >= 0], and
    every element has [search_type = "keyword"]. *)
Theorem keyword_search_ranked : forall weight query documents top_k,
  exists l, keyword_search weight query documents top_k = Ok l
  /\ sorted_desc l
  /\ ((0 <= top_k)%Z -> (Z.of_nat (List.length l) <= top_k)%Z)
  /\ Forall (fun r => search_type r = S_ "keyword") l.
Proof.
  intros weight query documents top_k.
  unfold keyword_search, catch_exc, keyword_search_body.
  destruct (normalize_query query) as [| t ts].
  - exists []. split; [reflexivity |]. split; [constructor |]. split; [simpl; lia | constructor].
  - unfold bind. destruct (keyword_loop weight (t :: ts) documents) as [results | e] eqn:Hl.
    + exists (py_take top_k (sort_desc results)). split; [reflexivity |]. split.
      * destruct (py_take_firstn _ top_k (sort_desc results)) as [m ->].
        apply sorted_firstn, sort_desc_sorted.
      * split.
        -- intro Hk. rewrite py_take_nonneg by exact Hk.
           pose proof (firstn_le_length (Z.to_nat top_k) (sort_desc results)). lia.
        -- apply Forall_forall. intros r Hr.
           apply py_take_incl, sort_desc_in in Hr.
           exact (proj1 (Forall_forall _ _) (keyword_loop_type _ _ _ _ Hl) r Hr).
    + rewrite (keyword_loop_err _ _ _ _ Hl). simpl.
      exists []. split; [reflexivity |]. split; [constructor |]. split; [simpl; lia | constructor].
Qed.

Lemma keyword_loop_nonstring : forall weight terms documents doc v,
  In doc documents -> doc_content doc = Some v -> (forall s, v <> VStr s) ->
  keyword_loop weight terms documents = Err AttributeError.
Proof.
  intros weight terms documents; induction documents as [| d docs IH];
    intros doc v Hin Hc Hv; [destruct Hin |].
  destruct Hin as [-> | Hin].
  - simpl. rewrite Hc. destruct v as [s | z |]; [destruct (Hv s eq_refl) | reflexivity | reflexivity].
  - simpl. rewrite (IH doc v Hin Hc Hv).
    destruct (doc_content d) as [[s | z |] |]; reflexivity.
Qed.

(** One document whose ["content"] is [None] or an [int] (values without a
    [.lower()] method) makes [KeywordSearch.search] return [[]] for any query
    that keeps a term after normalisation, whatever the other documents hold:
    [.lower()] raises [AttributeError] inside the loop and the handler
    discards every result. *)
Theorem keyword_search_nonstring_content_empties : forall weight query documents top_k doc v,
  normalize_query query <> [] -> In doc documents -> doc_content doc = Some v ->
  (v = VNone \/ exists z, v = VInt z) ->
  keyword_search weight query documents top_k = Ok [].
Proof.
  intros weight query documents top_k doc v Hq Hin Hc Hv.
  assert (Hv' : forall s, v <> VStr s) by (intros s; destruct Hv as [-> | [z ->]]; discriminate).
  unfold keyword_search, catch_exc, keyword_search_body.
  destruct (normalize_query query) as [| t ts]; [congruence |].
  unfold bind. rewrite (keyword_loop_nonstring weight (t :: ts) documents doc v Hin Hc Hv').
  reflexivity.
Qed.
Lemma keyword_search_nonstring_content_empties_witness :
  normalize_query refund_query <> [] /\ In broken_doc [refund_doc 1; broken_doc]
  /\ doc_content broken_doc = Some VNone /\ (VNone = VNone \/ exists z, VNone = VInt z)
  /\ keyword_search (3 # 10) refund_query [refund_doc 1; broken_doc] 5 = Ok [].
Proof.
  assert (Hq : normalize_query refund_query <> []) by (vm_compute; discriminate).
  assert (Hin : In broken_doc [refund_doc 1; broken_doc]) by (right; left; reflexivity).
  assert (Hv : VNone = VNone \/ exists z, VNone = VInt z) by (left; reflexivity).
  split; [exact Hq | split; [exact Hin | split; [reflexivity | split; [exact Hv |]]]].
  exact (keyword_search_nonstring_content_empties (3 # 10) refund_query
           [refund_doc 1; broken_doc] 5 broken_doc VNone Hq Hin eq_refl Hv).
Defined.


Lemma tf_score_pos : forall c, (0 < c)%Z -> 0 < tf_score c.
Proof.
  intros c Hc. unfold tf_score.
  assert (H : 0 < inject_Z c) by (change 0 with (inject_Z 0); rewrite <- Zlt_Qlt; exact Hc).
  apply Qlt_shift_div_l; [lra | lra].
Qed.

Lemma tf_score_nonneg : forall c, (0 <= c)%Z -> 0 <= tf_score c.
Proof. intros c Hc. rewrite <- tf_score_0. apply tf_score_mono. lia. Qed.

Lemma tf_sum_nonneg : forall cs, Forall (fun c => (0 <= c)%Z) cs -> 0 <= tf_sum cs.
Proof.
  intros cs H; induction H as [| c cs Hc _ IH]; simpl; [lra |].
  pose proof (tf_score_nonneg c Hc). lra.
Qed.

Lemma tf_sum_pos : forall cs, Forall (fun c => (0 <= c)%Z) cs ->
  (0 < tf_sum cs <-> exists c, In c cs /\ (0 < c)%Z).
Proof.
  intros cs H; induction H as [| c cs Hc Hcs IH]; simpl.
  - split; [intro H; apply Qlt_irrefl in H; destruct H | intros [c [[] _]]].
  - pose proof (tf_sum_nonneg cs Hcs) as Hn. pose proof (tf_score_nonneg c Hc) as Hn'.
    split.
    + intro Hp. destruct (Z.ltb_spec 0 c) as [Hlt | Hge].
      * exists c. split; [left; reflexivity | exact Hlt].
      * replace c with 0%Z in Hp by lia. rewrite tf_score_0 in Hp.
        destruct (proj1 IH ltac:(lra)) as [c' [Hin Hc']]. exists c'; split; [right; exact Hin | exact Hc'].
    + intros [c' [[<- | Hin] Hc']].
      * pose proof (tf_score_pos c Hc'). lra.
      * assert (0 < tf_sum cs) by (apply IH; exists c'; split; assumption). lra.
Qed.

(** [_calculate_score] is positive exactly when some query term occurs in the
    lowercased content, so [KeywordSearch.search] keeps a document exactly when
    it contains one of the terms. *)
Theorem calculate_score_positive_iff : forall query_terms content,
  0 < calculate_score query_terms content
  <-> exists t, In t query_terms /\ (0 < py_count t (py_lower content))%Z.
Proof.
  intros terms text. unfold calculate_score. rewrite calculate_score_fold, Qplus_0_l.
  rewrite tf_sum_pos.
  - split.
    + intros [c [Hin Hc]]. apply in_map_iff in Hin. destruct Hin as [t [<- Ht]]. eauto.
    + intros [t [Ht Hc]]. exists (py_count t (py_lower text)). split; [apply (in_map (fun term => py_count term (py_lower text))), Ht | exact Hc].
  - apply Forall_forall. intros c Hc. apply in_map_iff in Hc. destruct Hc as [t [<- _]].
    apply py_count_nonneg.
Qed.

Lemma sentence_chunk_well_formed_witness :
  let l := ok_or_nil (Sentence.chunk (Sentence.init 2 1) lorem []) in
  Sentence.chunk (Sentence.init 2 1) lorem [] = Ok l
  /\ map Chunk.chunk_index l = zseq (List.length l)
  /\ Forall (fun c => nonblank (Chunk.content c) = true) l.
Proof.
  intro l.
  assert (H : Sentence.chunk (Sentence.init 2 1) lorem [] = Ok l) by (vm_compute; reflexivity).
  split; [exact H | exact (sentence_chunk_well_formed _ _ _ _ H)].
Defined.

Lemma normalize_query_terms_witness :
  Forall (fun c => (nat_of_ascii c < 128)%nat) refund_query
  /\ In (S_ "refund") (normalize_query refund_query)
  /\ (3 <= List.length (S_ "refund"))%nat /\ ~ In (S_ "refund") stopwords
  /\ Forall (fun c => is_word c = true /\ is_upper c = false) (S_ "refund").
Proof.
  assert (Ha : Forall (fun c => (nat_of_ascii c < 128)%nat) refund_query).
  { apply Forall_forall. intros c Hc. apply Nat.ltb_lt. revert c Hc.
    apply forallb_forall. vm_compute. reflexivity. }
  assert (H : In (S_ "refund") (normalize_query refund_query)) by (vm_compute; left; reflexivity).
  split; [exact Ha | split; [exact H | exact (normalize_query_terms refund_query (S_ "refund") Ha H)]].
Defined.

Lemma keyword_search_ranked_witness :
  exists l, keyword_search (3 # 10) refund_query refund_docs 2 = Ok l
  /\ sorted_desc l
  /\ ((0 <= 2)%Z -> (Z.of_nat (List.length l) <= 2)%Z)
  /\ Forall (fun r => search_type r = S_ "keyword") l.
Proof. exact (keyword_search_ranked (3 # 10) refund_query refund_docs 2). Defined.

Lemma calculate_score_positive_iff_witness :
  0 < calculate_score [S_ "refund"] (S_ "Refund policy")
  <-> exists t, In t [S_ "refund"] /\ (0 < py_count t (py_lower (S_ "Refund policy")))%Z.
Proof. exact (calculate_score_positive_iff [S_ "refund"] (S_ "Refund policy")). Defined.
